(** * SessionPackrat: hash-state reconciliation and auto-snapshot scheduling

    A shallow embedding of [src/cpp/session/modules/SessionPackrat.cpp].

    The C++ module keeps its state in function-local and file-local statics
    ([s_runningPackratAction], [pendingSnapshots], [pAutoSnapshot]) and in the
    project-persistent client state.  Here all of it is one record,
    [Session], threaded explicitly through every function.  Everything the
    module reads from outside (files, R calls, path comparison) is a field of
    [World], so a function of the source that reads the disk becomes a
    function of the world it runs in. *)

From Stdlib Require Import ZArith String Ascii List Bool Lia.
From stdpp Require Import base strings gmap list.
Import ListNotations.

Local Open Scope string_scope.
Local Open Scope list_scope.
Local Open Scope Z_scope.

(** ** Checksums *)

Module Hash.

(** Modelled from the spec: [core/Hash.hpp] is not part of the source file.
    Section 4.1 asks for a fast non-cryptographic checksum "(e.g., CRC32)
    rendered as fixed-width hex"; this is the reflected CRC-32 of
    [boost::crc_32_type] (polynomial 0xEDB88320, initial value and final xor
    0xFFFFFFFF), printed as eight hexadecimal digits. *)
Definition crc32_poly : Z := 0xEDB88320.

Definition crc32_bit (c : Z) : Z :=
  if Z.testbit c 0
  then Z.lxor (Z.shiftr c 1) crc32_poly
  else Z.shiftr c 1.

Definition crc32_byte (c : Z) (a : ascii) : Z :=
  Nat.iter 8 crc32_bit (Z.lxor c (Z.of_nat (nat_of_ascii a))).

Fixpoint crc32_update (c : Z) (s : string) : Z :=
  match s with
  | EmptyString => c
  | String a s' => crc32_update (crc32_byte c a) s'
  end.

Definition crc32 (s : string) : Z :=
  Z.lxor (crc32_update 0xFFFFFFFF s) 0xFFFFFFFF.

Definition hexDigit (d : Z) : ascii :=
  if d <? 10
  then ascii_of_nat (Z.to_nat (48 + d))
  else ascii_of_nat (Z.to_nat (55 + d)).

Fixpoint hexFixed (width : nat) (z : Z) (acc : string) : string :=
  match width with
  | O => acc
  | S w => hexFixed w (Z.shiftr z 4) (String (hexDigit (Z.land z 15)) acc)
  end.

Definition crc32HexHash (content : string) : string :=
  hexFixed 8 (crc32 content) "".

End Hash.

(** ** Enumerations of the module *)

Inductive PackratActionType :=
| PACKRAT_ACTION_NONE
| PACKRAT_ACTION_SNAPSHOT
| PACKRAT_ACTION_RESTORE
| PACKRAT_ACTION_CLEAN
| PACKRAT_ACTION_UNKNOWN.

Inductive PackratHashType :=
| HASH_TYPE_LOCKFILE
| HASH_TYPE_LIBRARY.

Inductive PackratHashState :=
| HASH_STATE_RESOLVED
| HASH_STATE_OBSERVED
| HASH_STATE_COMPUTED.

Inductive PendingSnapshotAction :=
| SET_PENDING_SNAPSHOT
| COMPLETE_SNAPSHOT.

#[global] Instance PackratActionType_eq_dec : EqDecision PackratActionType :=
  ltac:(solve_decision).

Definition kPackratFolder : string := "packrat".
Definition kPackratLockfile : string := "packrat.lock".
Definition kPackratActionRestore : string := "restore".
Definition kPackratActionClean : string := "clean".
Definition kPackratActionSnapshot : string := "snapshot".

Definition packratAction (str : string) : PackratActionType :=
  if String.eqb str kPackratActionSnapshot then PACKRAT_ACTION_SNAPSHOT
  else if String.eqb str kPackratActionRestore then PACKRAT_ACTION_RESTORE
  else if String.eqb str kPackratActionClean then PACKRAT_ACTION_CLEAN
  else PACKRAT_ACTION_UNKNOWN.

Definition packratActionName (action : PackratActionType) : string :=
  match action with
  | PACKRAT_ACTION_SNAPSHOT => kPackratActionSnapshot
  | PACKRAT_ACTION_RESTORE => kPackratActionRestore
  | PACKRAT_ACTION_CLEAN => kPackratActionClean
  | _ => ""
  end.

(** ** Paths *)

(** A [FilePath] is the list of its components, root first.  Only the four
    queries the module makes of a path are modelled. *)
Definition FilePath := list string.

Definition filename (p : FilePath) : string := List.last p "".

Definition parent (p : FilePath) : FilePath := List.removelast p.

Definition complete (dir : FilePath) (rel : list string) : FilePath :=
  dir ++ rel.

(** [p.isWithin(scope)]: [scope] itself, or anything below it. *)
Fixpoint isWithin (p scope : FilePath) : bool :=
  match scope, p with
  | [], _ => true
  | c :: scope', d :: p' => String.eqb c d && isWithin p' scope'
  | _ :: _, [] => false
  end.

Definition kPackratLibPath : list string := [kPackratFolder; "lib"].
Definition kPackratLockfilePath : list string :=
  [kPackratFolder; kPackratLockfile].

(** ** The outside world *)

Inductive JsonValue :=
| JsonNull
| JsonBool (b : bool)
| JsonString (s : string)
| JsonArray (items : list string).

(** What an R call hands back: a list of action descriptors, or an object of
    some length that has no JSON rendering. *)
Inductive SEXP :=
| SexpList (items : list string)
| SexpOpaque (len : nat).

Definition sexp_length (x : SEXP) : nat :=
  match x with
  | SexpList items => List.length items
  | SexpOpaque len => len
  end.

Definition jsonValueFromObject (x : SEXP) : option JsonValue :=
  match x with
  | SexpList items => Some (JsonArray items)
  | SexpOpaque _ => None
  end.

(** Everything the module reads but does not own.  [None] stands for the
    [Error] a call returns. *)
Record World := mkWorld {
  projectDirectory : FilePath;
  fileExists : FilePath -> bool;
  fileIsDirectory : FilePath -> bool;
  readStringFromFile : FilePath -> option string;
  (* the (level, path) pairs [FilePath::childrenRecursive] visits, in order *)
  childrenRecursive : FilePath -> list (Z * FilePath);
  (* [.rs.pendingActions(action, project)] *)
  rs_pendingActions : string -> option SEXP;
  (* [.rs.getAutoSnapshotCmd(project)] *)
  rs_getAutoSnapshotCmd : option string;
  (* [core::system::realPathsEqual(projectDirectory, FilePath(project))] *)
  realPathsEqual : string -> bool
}.

(** ** Session state *)

Inductive ClientEvent :=
| kInstalledPackagesChanged.

Inductive RCall :=
| RCallPendingActions (action : string)
| RCallGetAutoSnapshotCmd.

(** One [AutoSnapshot] object.  [isRunning_] is the flag of its base class
    [AsyncRProcess]. *)
Record AutoSnapshot := mkAutoSnapshot {
  targetHash_ : string;
  snapshotCmd_ : string;
  isRunning_ : bool
}.

Record Session := mkSession {
  s_runningPackratAction : PackratActionType;
  (* [static int pendingSnapshots] of [pendingSnapshot] *)
  pendingSnapshots : Z;
  (* every [AutoSnapshot] ever created, oldest first *)
  processes : list AutoSnapshot;
  (* [static shared_ptr pAutoSnapshot] of [performAutoSnapshot], as an index
     into [processes] *)
  pAutoSnapshot : option nat;
  (* the "packrat" scope of the project-persistent client state *)
  projectPersistent : gmap string JsonValue;
  (* client events enqueued so far, oldest first *)
  clientEvents : list ClientEvent;
  (* R functions called so far, oldest first *)
  rCalls : list RCall;
  (* the recursion guard of [checkHashes] *)
  checkingHashes : bool
}.

Definition initialSession : Session :=
  {| s_runningPackratAction := PACKRAT_ACTION_NONE;
     pendingSnapshots := 0;
     processes := [];
     pAutoSnapshot := None;
     projectPersistent := ∅;
     clientEvents := [];
     rCalls := [];
     checkingHashes := false |}.

Definition set_runningPackratAction (a : PackratActionType) (s : Session) :=
  {| s_runningPackratAction := a;
     pendingSnapshots := pendingSnapshots s;
     processes := processes s;
     pAutoSnapshot := pAutoSnapshot s;
     projectPersistent := projectPersistent s;
     clientEvents := clientEvents s;
     rCalls := rCalls s;
     checkingHashes := checkingHashes s |}.

Definition set_pendingSnapshots (n : Z) (s : Session) :=
  {| s_runningPackratAction := s_runningPackratAction s;
     pendingSnapshots := n;
     processes := processes s;
     pAutoSnapshot := pAutoSnapshot s;
     projectPersistent := projectPersistent s;
     clientEvents := clientEvents s;
     rCalls := rCalls s;
     checkingHashes := checkingHashes s |}.

Definition set_processes (ps : list AutoSnapshot) (s : Session) :=
  {| s_runningPackratAction := s_runningPackratAction s;
     pendingSnapshots := pendingSnapshots s;
     processes := ps;
     pAutoSnapshot := pAutoSnapshot s;
     projectPersistent := projectPersistent s;
     clientEvents := clientEvents s;
     rCalls := rCalls s;
     checkingHashes := checkingHashes s |}.

Definition set_pAutoSnapshot (p : option nat) (s : Session) :=
  {| s_runningPackratAction := s_runningPackratAction s;
     pendingSnapshots := pendingSnapshots s;
     processes := processes s;
     pAutoSnapshot := p;
     projectPersistent := projectPersistent s;
     clientEvents := clientEvents s;
     rCalls := rCalls s;
     checkingHashes := checkingHashes s |}.

Definition set_projectPersistent (m : gmap string JsonValue) (s : Session) :=
  {| s_runningPackratAction := s_runningPackratAction s;
     pendingSnapshots := pendingSnapshots s;
     processes := processes s;
     pAutoSnapshot := pAutoSnapshot s;
     projectPersistent := m;
     clientEvents := clientEvents s;
     rCalls := rCalls s;
     checkingHashes := checkingHashes s |}.

Definition set_clientEvents (es : list ClientEvent) (s : Session) :=
  {| s_runningPackratAction := s_runningPackratAction s;
     pendingSnapshots := pendingSnapshots s;
     processes := processes s;
     pAutoSnapshot := pAutoSnapshot s;
     projectPersistent := projectPersistent s;
     clientEvents := es;
     rCalls := rCalls s;
     checkingHashes := checkingHashes s |}.

Definition set_rCalls (cs : list RCall) (s : Session) :=
  {| s_runningPackratAction := s_runningPackratAction s;
     pendingSnapshots := pendingSnapshots s;
     processes := processes s;
     pAutoSnapshot := pAutoSnapshot s;
     projectPersistent := projectPersistent s;
     clientEvents := clientEvents s;
     rCalls := cs;
     checkingHashes := checkingHashes s |}.

Definition set_checkingHashes (b : bool) (s : Session) :=
  {| s_runningPackratAction := s_runningPackratAction s;
     pendingSnapshots := pendingSnapshots s;
     processes := processes s;
     pAutoSnapshot := pAutoSnapshot s;
     projectPersistent := projectPersistent s;
     clientEvents := clientEvents s;
     rCalls := rCalls s;
     checkingHashes := b |}.

(** ** Machine integers *)

(** [int] is 32 bits wide; [pendingSnapshots++] is modelled with the
    two's-complement wrap-around the compiled code has. *)
Definition INT_MAX : Z := 2147483647.
Definition INT_MIN : Z := -2147483648.

Definition int_wrap (z : Z) : Z := (z + 2147483648) mod 4294967296 - 2147483648.

Definition int_incr (z : Z) : Z := int_wrap (z + 1).

(** ** Library and lockfile hashing and comparison *)

Definition keyOfHashType (hashType : PackratHashType)
    (hashState : PackratHashState) : string :=
  String.append
    (String.append "packrat"
       (match hashType with
        | HASH_TYPE_LOCKFILE => "Lockfile"
        | _ => "Library"
        end))
    (match hashState with
     | HASH_STATE_OBSERVED => "Observed"
     | _ => "Resolved"
     end).

(** The callback of [childrenRecursive]: appends the content of [path] when
    it is a DESCRIPTION file.  A read error leaves [newDescContent] empty. *)
Definition addDescContent (w : World) (level : Z) (path : FilePath)
    (pDescContent : string) : bool * string :=
  if String.eqb (filename path) "DESCRIPTION"
  then
    let newDescContent :=
      match readStringFromFile w path with
      | Some content => content
      | None => ""
      end in
    (true, String.append pDescContent newDescContent)
  else (true, pDescContent).

(** [FilePath::childrenRecursive]: calls [f] on each child in turn and stops
    when [f] answers [false]. *)
Fixpoint iterateChildren (f : Z -> FilePath -> string -> bool * string)
    (children : list (Z * FilePath)) (acc : string) : string :=
  match children with
  | [] => acc
  | (level, path) :: rest =>
      let r := f level path acc in
      if fst r then iterateChildren f rest (snd r) else snd r
  end.

Definition computeLibraryHash (w : World) : string :=
  let libraryPath := complete (projectDirectory w) kPackratLibPath in
  let descFileContent :=
    iterateChildren (addDescContent w) (childrenRecursive w libraryPath) "" in
  if String.eqb descFileContent "" then ""
  else Hash.crc32HexHash descFileContent.

Definition computeLockfileHash (w : World) : string :=
  let lockFilePath := complete (projectDirectory w) kPackratLockfilePath in
  if negb (fileExists w lockFilePath) then ""
  else
    match readStringFromFile w lockFilePath with
    | None => ""
    | Some lockFileContent => Hash.crc32HexHash lockFileContent
    end.

Definition getProjectPersistent (key : string) (s : Session) : JsonValue :=
  match projectPersistent s !! key with
  | Some v => v
  | None => JsonNull
  end.

Definition putProjectPersistent (key : string) (v : string) (s : Session)
    : Session :=
  set_projectPersistent (<[key := JsonString v]> (projectPersistent s)) s.

Definition getHash (w : World) (hashType : PackratHashType)
    (hashState : PackratHashState) (s : Session) : string :=
  match hashState with
  | HASH_STATE_COMPUTED =>
      match hashType with
      | HASH_TYPE_LOCKFILE => computeLockfileHash w
      | _ => computeLibraryHash w
      end
  | _ =>
      match getProjectPersistent (keyOfHashType hashType hashState) s with
      | JsonString str => str
      | _ => ""
      end
  end.

Definition updateHash (w : World) (hashType : PackratHashType)
    (hashState : PackratHashState) (s : Session) : string * Session :=
  let newHash := getHash w hashType HASH_STATE_COMPUTED s in
  let oldHash := getHash w hashType hashState s in
  if negb (String.eqb newHash oldHash)
  then (newHash, putProjectPersistent (keyOfHashType hashType hashState) newHash s)
  else (newHash, s).

(** Modelled from the spec: the macro [DROP_RECURSIVE_CALLS] comes from
    [core/RecursionGuard.hpp], which is not part of the source file.
    Section 5: "a non-blocking scoped flag (set on entry, guaranteed
    cleared on every exit path)"; a call that finds the flag set returns at
    once. *)
Definition checkHashes (w : World) (hashType : PackratHashType)
    (hashState : PackratHashState)
    (onMismatch : string -> string -> Session -> Session)
    (s : Session) : Session :=
  if checkingHashes s then s
  else
    let s1 := set_checkingHashes true s in
    let oldHash := getHash w hashType hashState s1 in
    let newHash := getHash w hashType HASH_STATE_COMPUTED s1 in
    let s2 :=
      if String.eqb oldHash newHash then s1
      else onMismatch oldHash newHash s1 in
    set_checkingHashes false s2.

Definition isHashUnresolved (w : World) (hashType : PackratHashType)
    (s : Session) : bool :=
  let observedHash := getHash w hashType HASH_STATE_OBSERVED s in
  let resolvedHash := getHash w hashType HASH_STATE_RESOLVED s in
  if String.eqb observedHash "" || String.eqb resolvedHash "" then false
  else negb (String.eqb observedHash resolvedHash).

Definition emitPackagesChanged (s : Session) : Session :=
  set_clientEvents (clientEvents s ++ [kInstalledPackagesChanged]) s.

(** ** Pending actions and resolution *)

(** [pActions] is [None] for a null pointer and [Some v] for a pointer to a
    value currently holding [v]; the second component of the result is what
    the pointer holds afterwards. *)
Definition getPendingActions (w : World) (action : PackratActionType)
    (pActions : option JsonValue) (s : Session)
    : bool * option JsonValue * Session :=
  let s1 :=
    set_rCalls (rCalls s ++ [RCallPendingActions (packratActionName action)]) s in
  match rs_pendingActions w (packratActionName action) with
  | None => (false, pActions, s1)
  | Some actions =>
      if Nat.eqb (sexp_length actions) 0 then (false, pActions, s1)
      else
        match pActions with
        | None => (true, None, s1)
        | Some old =>
            match jsonValueFromObject actions with
            | Some v => (true, Some v, s1)
            | None => (false, Some old, s1)
            end
        end
  end.

Definition resolveStateAfterAction (w : World) (action : PackratActionType)
    (hashType : PackratHashType) (s : Session) : Session :=
  let s1 :=
    if negb (String.eqb (getHash w hashType HASH_STATE_OBSERVED s)
                        (getHash w hashType HASH_STATE_COMPUTED s))
    then emitPackagesChanged s
    else s in
  let r := getPendingActions w action None s1 in
  let s2 := snd r in
  if negb (fst (fst r))
  then
    let s3 := snd (updateHash w HASH_TYPE_LIBRARY HASH_STATE_RESOLVED s2) in
    snd (updateHash w HASH_TYPE_LOCKFILE HASH_STATE_RESOLVED s3)
  else s2.

(** ** Auto-snapshot *)

(** Modelled from the spec: [AsyncRProcess] ([start], [isRunning], the
    completion callback) lives in [SessionAsyncRProcess.hpp], which is not
    part of the source file.  Section 4.4: a request in IDLE "start[s the]
    external snapshot subprocess bound to h"; here [start] marks the new
    object as running. *)
Definition AutoSnapshot_create (w : World) (projectDir : FilePath)
    (targetHash : string) (s : Session) : nat * Session :=
  let s1 := set_rCalls (rCalls s ++ [RCallGetAutoSnapshotCmd]) s in
  let snapshotCmd :=
    match rs_getAutoSnapshotCmd w with
    | Some cmd => cmd
    | None => ""
    end in
  let pSnapshot :=
    {| targetHash_ := targetHash;
       snapshotCmd_ := snapshotCmd;
       isRunning_ := true |} in
  (List.length (processes s1), set_processes (processes s1 ++ [pSnapshot]) s1).

(** The object [pAutoSnapshot] points to, when the pointer is set and the
    object [isRunning()]. *)
Definition runningAutoSnapshot (s : Session) : option AutoSnapshot :=
  match pAutoSnapshot s with
  | None => None
  | Some i =>
      match processes s !! i with
      | Some p => if isRunning_ p then Some p else None
      | None => None
      end
  end.

(** The [SET_PENDING_SNAPSHOT] branch of [pendingSnapshot].  The source
    declares [pendingSnapshot] and [performAutoSnapshot] ahead and lets them
    call each other; [performAutoSnapshot] only ever takes this branch, which
    returns without calling back, so it is given a name of its own and
    [pendingSnapshot] below dispatches to it. *)
Definition pendingSnapshot_set (s : Session) : Session :=
  set_pendingSnapshots (int_incr (pendingSnapshots s)) s.

Definition performAutoSnapshot (w : World) (newHash : string) (s : Session)
    : Session :=
  match runningAutoSnapshot s with
  | Some p =>
      if String.eqb (targetHash_ p) newHash then s
      else pendingSnapshot_set s
  | None =>
      let r := AutoSnapshot_create w (projectDirectory w) newHash s in
      set_pAutoSnapshot (Some (fst r)) (snd r)
  end.

Definition pendingSnapshot (w : World) (action : PendingSnapshotAction)
    (s : Session) : Session :=
  match action with
  | SET_PENDING_SNAPSHOT => pendingSnapshot_set s
  | COMPLETE_SNAPSHOT =>
      if 0 <? pendingSnapshots s
      then
        let s1 := set_pendingSnapshots 0 s in
        performAutoSnapshot w (computeLibraryHash w) s1
      else
        resolveStateAfterAction w PACKRAT_ACTION_SNAPSHOT HASH_TYPE_LIBRARY s
  end.

Definition onCompleted (w : World) (exitStatus : Z) (s : Session) : Session :=
  if negb (exitStatus =? 0) then s
  else pendingSnapshot w COMPLETE_SNAPSHOT s.

(** Modelled from the spec: the exit of subprocess [pid], as [AsyncRProcess]
    (not part of the source file) delivers it.  Section 3: "AutoSnapshotRun
    exists only while a subprocess is active", so the object stops being
    running before [onCompleted] runs.  An exit of a process that is not
    running cannot happen and changes nothing. *)
Definition markCompleted (p : AutoSnapshot) : AutoSnapshot :=
  {| targetHash_ := targetHash_ p;
     snapshotCmd_ := snapshotCmd_ p;
     isRunning_ := false |}.

Definition onProcessCompleted (w : World) (pid : nat) (exitStatus : Z)
    (s : Session) : Session :=
  match processes s !! pid with
  | Some p =>
      if isRunning_ p
      then
        onCompleted w exitStatus
          (set_processes (<[pid := markCompleted p]> (processes s)) s)
      else s
  | None => s
  end.

(** ** Library and lockfile monitoring *)

Definition onLockfileUpdate (oldHash newHash : string) (s : Session)
    : Session :=
  emitPackagesChanged s.

Definition onLibraryUpdate (w : World) (oldHash newHash : string)
    (s : Session) : Session :=
  if negb (isHashUnresolved w HASH_TYPE_LOCKFILE s)
  then performAutoSnapshot w newHash s
  else emitPackagesChanged s.

Definition onFileChanged (w : World) (sourceFilePath : FilePath) (s : Session)
    : Session :=
  if negb (bool_decide (s_runningPackratAction s = PACKRAT_ACTION_NONE))
  then s
  else
    let libraryPath := complete (projectDirectory w) kPackratLibPath in
    if String.eqb (filename sourceFilePath) kPackratLockfile
    then checkHashes w HASH_TYPE_LOCKFILE HASH_STATE_OBSERVED onLockfileUpdate s
    else if isWithin sourceFilePath libraryPath
              && (fileIsDirectory w sourceFilePath
                  || String.eqb (filename sourceFilePath) "DESCRIPTION")
    then
      if String.eqb (filename sourceFilePath) "manipulate"
         || String.eqb (filename sourceFilePath) "rstudio"
         || String.eqb (filename (parent sourceFilePath)) "manipulate"
         || String.eqb (filename (parent sourceFilePath)) "rstudio"
      then s
      else checkHashes w HASH_TYPE_LIBRARY HASH_STATE_OBSERVED
             (onLibraryUpdate w) s
    else s.

Definition onFilesChanged (w : World) (changes : list FilePath) (s : Session)
    : Session :=
  fold_left (fun acc changedFilePath => onFileChanged w changedFilePath acc)
    changes s.

(** ** Action lifecycle *)

Definition onPackratAction (w : World) (project action : string)
    (running : bool) (s : Session) : Session :=
  if negb (realPathsEqual w project) then s
  else if running
  then set_runningPackratAction (packratAction action) s
  else
    let completedAction := s_runningPackratAction s in
    let s1 := set_runningPackratAction PACKRAT_ACTION_NONE s in
    match completedAction with
    | PACKRAT_ACTION_RESTORE =>
        resolveStateAfterAction w PACKRAT_ACTION_RESTORE HASH_TYPE_LOCKFILE s1
    | PACKRAT_ACTION_SNAPSHOT =>
        resolveStateAfterAction w PACKRAT_ACTION_SNAPSHOT HASH_TYPE_LIBRARY s1
    | _ => s1
    end.

(** ** Status annotation *)

Record PendingActionsJson := mkPendingActionsJson {
  restore_actions : JsonValue;
  snapshot_actions : JsonValue;
  clean_actions : JsonValue
}.

Definition pointee (p : option JsonValue) : JsonValue :=
  match p with
  | Some v => v
  | None => JsonNull
  end.

Definition annotatePendingActions (w : World) (s : Session)
    : PendingActionsJson * Session :=
  let restoreActions := JsonNull in
  let snapshotActions := JsonNull in
  let cleanActions := JsonNull in
  let u1 := updateHash w HASH_TYPE_LIBRARY HASH_STATE_OBSERVED s in
  let libraryHash := fst u1 in
  let u2 := updateHash w HASH_TYPE_LOCKFILE HASH_STATE_OBSERVED (snd u1) in
  let lockfileHash := fst u2 in
  let s2 := snd u2 in
  let libraryDirty :=
    negb (String.eqb libraryHash
            (getHash w HASH_TYPE_LIBRARY HASH_STATE_RESOLVED s2)) in
  let lockfileDirty :=
    negb (String.eqb lockfileHash
            (getHash w HASH_TYPE_LOCKFILE HASH_STATE_RESOLVED s2)) in
  let r1 :=
    if libraryDirty
    then getPendingActions w PACKRAT_ACTION_SNAPSHOT (Some snapshotActions) s2
    else (false, Some snapshotActions, s2) in
  let r2 :=
    if lockfileDirty
    then getPendingActions w PACKRAT_ACTION_RESTORE (Some restoreActions) (snd r1)
    else (false, Some restoreActions, snd r1) in
  let r3 :=
    getPendingActions w PACKRAT_ACTION_CLEAN (Some cleanActions) (snd r2) in
  ({| restore_actions := pointee (snd (fst r2));
      snapshot_actions := pointee (snd (fst r1));
      clean_actions := pointee (snd (fst r3)) |},
   snd r3).

(** ** Events and runs *)

(** What reaches the module from outside, one constructor per entry point.
    [RequestSnapshot] is the scheduler's own entry point,
    [performAutoSnapshot]. *)
Inductive Event :=
| FileChanged (sourceFilePath : FilePath)
| FilesChanged (changes : list FilePath)
| PackratAction (project action : string) (running : bool)
| ProcessCompleted (pid : nat) (exitStatus : Z)
| AnnotatePendingActions
| RequestSnapshot (newHash : string).

Definition handle (w : World) (ev : Event) (s : Session) : Session :=
  match ev with
  | FileChanged p => onFileChanged w p s
  | FilesChanged ps => onFilesChanged w ps s
  | PackratAction project action running =>
      onPackratAction w project action running s
  | ProcessCompleted pid exitStatus => onProcessCompleted w pid exitStatus s
  | AnnotatePendingActions => snd (annotatePendingActions w s)
  | RequestSnapshot newHash => performAutoSnapshot w newHash s
  end.

(** A run is a sequence of events, each with the world it happens in: the
    disk and the R session may change between any two events. *)
Definition run (tr : list (World * Event)) (s : Session) : Session :=
  fold_left (fun acc we => handle (fst we) (snd we) acc) tr s.

(** Snapshot subprocesses that are active. *)
Definition activeProcesses (s : Session) : list AutoSnapshot :=
  List.filter isRunning_ (processes s).

(** ** Concrete worlds used by the examples *)

Module Scenario.

Definition projectDir : FilePath := ["home"; "user"; "proj"].
Definition lockfilePath : FilePath := complete projectDir kPackratLockfilePath.
Definition libraryPath : FilePath := complete projectDir kPackratLibPath.
Definition descPath (pkg : string) : FilePath :=
  libraryPath ++ [pkg; "DESCRIPTION"].

(** A project whose lockfile holds [lock] and whose library holds one
    DESCRIPTION file per entry of [pkgs]; [pending] answers
    [.rs.pendingActions]. *)
Definition world (lock : option string) (pkgs : list (string * string))
    (pending : string -> option SEXP) : World :=
  {| projectDirectory := projectDir;
     fileExists := fun p =>
       bool_decide (p = lockfilePath) && bool_decide (lock <> None);
     fileIsDirectory := fun p => negb (String.eqb (filename p) "DESCRIPTION")
                                 && negb (String.eqb (filename p) kPackratLockfile);
     readStringFromFile := fun p =>
       if bool_decide (p = lockfilePath) then lock
       else snd <$> List.find (fun e => bool_decide (p = descPath (fst e))) pkgs;
     childrenRecursive := fun _ =>
       List.map (fun e => (1, descPath (fst e))) pkgs;
     rs_pendingActions := pending;
     rs_getAutoSnapshotCmd := Some "packrat::snapshot()";
     realPathsEqual := fun project => String.eqb project "/home/user/proj" |}.

Definition noPending : string -> option SEXP := fun _ => Some (SexpList []).
Definition failingPending : string -> option SEXP := fun _ => None.

End Scenario.

(** ** Notions used by the statements *)

(** Whether [.rs.pendingActions] reports anything for [action]: the call
    succeeds and its result is not empty. *)
Definition pendingActionsRemain (w : World) (action : PackratActionType)
    : bool :=
  match rs_pendingActions w (packratActionName action) with
  | Some actions => negb (Nat.eqb (sexp_length actions) 0)
  | None => false
  end.

(** The session in which [resolveStateAfterAction] queries the pending
    actions: a refresh has been enqueued if the observed view is stale, and
    the R call has been made. *)
Definition afterPendingQuery (w : World) (action : PackratActionType)
    (hashType : PackratHashType) (s : Session) : Session :=
  let s1 :=
    if negb (String.eqb (getHash w hashType HASH_STATE_OBSERVED s)
                        (getHash w hashType HASH_STATE_COMPUTED s))
    then emitPackagesChanged s
    else s in
  set_rCalls (rCalls s1 ++ [RCallPendingActions (packratActionName action)]) s1.

(** Only the object [pAutoSnapshot] points to can be running, and the
    pending counter is a value of type [int]. *)
Definition SchedInv (s : Session) : Prop :=
  (forall (i : nat) (p : AutoSnapshot),
      processes s !! i = Some p -> isRunning_ p = true ->
      pAutoSnapshot s = Some i) /\
  INT_MIN <= pendingSnapshots s <= INT_MAX.

(** Two sessions with the same scheduler state. *)
Definition sameSched (s s' : Session) : Prop :=
  processes s' = processes s /\
  pAutoSnapshot s' = pAutoSnapshot s /\
  pendingSnapshots s' = pendingSnapshots s.

(** The subprocess [performAutoSnapshot] starts for target [h] in world [w]. *)
Definition startedFor (w : World) (h : string) : AutoSnapshot :=
  {| targetHash_ := h;
     snapshotCmd_ :=
       match rs_getAutoSnapshotCmd w with
       | Some cmd => cmd
       | None => ""
       end;
     isRunning_ := true |}.

Definition isFileEvent (ev : Event) : bool :=
  match ev with
  | FileChanged _ | FilesChanged _ => true
  | _ => false
  end.

(** The two calls of [checkHashes] that [onFileChanged] makes, by entity. *)
Definition checkAndNotify (w : World) (hashType : PackratHashType)
    (s : Session) : Session :=
  match hashType with
  | HASH_TYPE_LOCKFILE =>
      checkHashes w HASH_TYPE_LOCKFILE HASH_STATE_OBSERVED onLockfileUpdate s
  | HASH_TYPE_LIBRARY =>
      checkHashes w HASH_TYPE_LIBRARY HASH_STATE_OBSERVED (onLibraryUpdate w) s
  end.

Inductive Classification :=
| CLASS_LOCKFILE
| CLASS_LIBRARY
| CLASS_IGNORED.

Definition isReservedName (name : string) : bool :=
  String.eqb name "manipulate" || String.eqb name "rstudio".

(** The branch [onFileChanged] takes for a path, once no action is
    running. *)
Definition classifyPath (w : World) (sourceFilePath : FilePath)
    : Classification :=
  let libraryPath := complete (projectDirectory w) kPackratLibPath in
  if String.eqb (filename sourceFilePath) kPackratLockfile
  then CLASS_LOCKFILE
  else if isWithin sourceFilePath libraryPath
            && (fileIsDirectory w sourceFilePath
                || String.eqb (filename sourceFilePath) "DESCRIPTION")
  then
    if isReservedName (filename sourceFilePath)
       || isReservedName (filename (parent sourceFilePath))
    then CLASS_IGNORED
    else CLASS_LIBRARY
  else CLASS_IGNORED.

(** The components of [p] below [scope], when [p] lies within [scope]. *)
Fixpoint relativeTo (p scope : FilePath) : option (list string) :=
  match scope, p with
  | [], _ => Some p
  | c :: scope', d :: p' =>
      if String.eqb c d then relativeTo p' scope' else None
  | _ :: _, [] => None
  end.

(** The specification's "under a reserved library subdirectory": [p] lies
    within the library root and one of the directories on the way down from
    the root to [p] has a reserved name, at whatever depth. *)
Definition underReservedDirectory (w : World) (p : FilePath) : bool :=
  match relativeTo p (complete (projectDirectory w) kPackratLibPath) with
  | Some rel => existsb isReservedName (List.removelast rel)
  | None => false
  end.

(** ** Packrat context and options *)

(** The part of the session the context functions of [module_context] read:
    the package check, the project, and three R calls.  [None] stands for
    the [Error] a call returns. *)
Record ContextWorld := mkContextWorld {
  (* [module_context::isPackageVersionInstalled(name, version)] *)
  isPackageVersionInstalled : string -> string -> bool;
  (* [projects::projectContext().hasProject()] *)
  hasProject : bool;
  (* [packrat:::checkPackified(project, silent = TRUE)] *)
  rs_checkPackified : option bool;
  (* [.rs.isPackratModeOn(project)] *)
  rs_isPackratModeOn : option bool;
  (* [packrat:::get_opts(simplify = FALSE, project)] *)
  rs_get_opts : option SEXP;
  (* [r::sexp::getNamedListElement(list, name, &value, default)]: whether it
     returns an error, and what it leaves in [value] *)
  getNamedListElement : SEXP -> string -> bool -> bool -> bool * bool
}.

Record PackratContext := mkPackratContext {
  available : bool;
  applicable : bool;
  packified : bool;
  modeOn : bool
}.

Definition isRequiredPackratInstalled (cw : ContextWorld) : bool :=
  isPackageVersionInstalled cw "packrat" "0.2.0.109".

(** [context0] is the default-constructed [PackratContext]; the struct is
    declared outside the source file, so its initial flags are an argument.
    A failing R call leaves the flag it was to fill as it is. *)
Definition packratContext (cw : ContextWorld) (context0 : PackratContext)
    : PackratContext :=
  let available' := isRequiredPackratInstalled cw in
  let applicable' := available' && hasProject cw in
  if applicable'
  then
    let packified' :=
      match rs_checkPackified cw with
      | Some b => b
      | None => packified context0
      end in
    let modeOn' :=
      if packified'
      then
        match rs_isPackratModeOn cw with
        | Some b => b
        | None => modeOn context0
        end
      else modeOn context0 in
    {| available := available';
       applicable := applicable';
       packified := packified';
       modeOn := modeOn' |}
  else
    {| available := available';
       applicable := applicable';
       packified := packified context0;
       modeOn := modeOn context0 |}.

Definition contextAsJson (context : PackratContext) : gmap string JsonValue :=
  <["mode_on" := JsonBool (modeOn context)]>
    (<["packified" := JsonBool (packified context)]>
       (<["applicable" := JsonBool (applicable context)]>
          (<["available" := JsonBool (available context)]> ∅))).

Definition copyOption (cw : ContextWorld) (optionsSEXP : SEXP)
    (listName : string) (pOptionsJson : gmap string JsonValue)
    (jsonName : string) (defaultValue : bool) : gmap string JsonValue :=
  let value := defaultValue in
  let r := getNamedListElement cw optionsSEXP listName value defaultValue in
  <[jsonName := JsonBool (snd r)]> pOptionsJson.

Definition defaultPackratOptions : gmap string JsonValue :=
  <["vcs_ignore_src" := JsonBool false]>
    (<["vcs_ignore_lib" := JsonBool true]>
       (<["auto_snapshot" := JsonBool true]> ∅)).

Definition packratOptionsAsJson (cw : ContextWorld)
    (context0 : PackratContext) : gmap string JsonValue :=
  let context := packratContext cw context0 in
  if packified context
  then
    match rs_get_opts cw with
    | None => defaultPackratOptions
    | Some optionsSEXP =>
        let o1 := copyOption cw optionsSEXP "auto.snapshot" ∅
                    "auto_snapshot" true in
        let o2 := copyOption cw optionsSEXP "vcs.ignore.lib" o1
                    "vcs_ignore_lib" true in
        copyOption cw optionsSEXP "vcs.ignore.src" o2 "vcs_ignore_src" false
    end
  else defaultPackratOptions.

(** ** Further notions used by the statements *)

(** A sequence of scheduler requests made in one world. *)
Definition requests (w : World) (hs : list string) (s : Session) : Session :=
  fold_left (fun acc h => performAutoSnapshot w h acc) hs s.

(** The exit, with status 0, of the run [pAutoSnapshot] points to. *)
Definition exitCurrent (w : World) (s : Session) : Session :=
  match pAutoSnapshot s with
  | Some i => onProcessCompleted w i 0 s
  | None => s
  end.

(** How many of the requested hashes differ from [target]. *)
Definition differing (target : string) (hs : list string) : Z :=
  Z.of_nat (List.length
              (List.filter (fun h => negb (String.eqb target h)) hs)).

(** The four keys under which the module stores hashes. *)
Definition hashKeys : list string :=
  [keyOfHashType HASH_TYPE_LOCKFILE HASH_STATE_RESOLVED;
   keyOfHashType HASH_TYPE_LOCKFILE HASH_STATE_OBSERVED;
   keyOfHashType HASH_TYPE_LIBRARY HASH_STATE_RESOLVED;
   keyOfHashType HASH_TYPE_LIBRARY HASH_STATE_OBSERVED].

(** What the DESCRIPTION files of the library contribute to the hashed
    content, in the order [childrenRecursive] visits them: the content of
    each file of that name, nothing for one that cannot be read, and nothing
    for any other file. *)
Definition descContents (w : World) : list string :=
  List.flat_map
    (fun c : Z * FilePath =>
       if String.eqb (filename (snd c)) "DESCRIPTION"
       then match readStringFromFile w (snd c) with
            | Some content => [content]
            | None => []
            end
       else [])
    (childrenRecursive w (complete (projectDirectory w) kPackratLibPath)).

(** The JSON list [getPendingActions] leaves behind a non-null pointer that
    held [JsonNull]. *)
Definition reportedActions (w : World) (action : PackratActionType)
    : JsonValue :=
  match rs_pendingActions w (packratActionName action) with
  | Some (SexpList (x :: items)) => JsonArray (x :: items)
  | _ => JsonNull
  end.

(** Every entry of the store of [s'] is an entry of [s] or a string under
    one of the four hash keys. *)
Definition storeGrows (s s' : Session) : Prop :=
  forall (key : string) (v : JsonValue),
    projectPersistent s' !! key = Some v ->
    projectPersistent s !! key = Some v
    \/ (In key hashKeys /\ exists str, v = JsonString str).

(** Every subprocess of [s] is still in the table of [s'], at the same
    place, with the same target and command, and not running if it was not
    running. *)
Definition tableGrows (s s' : Session) : Prop :=
  forall (i : nat) (p : AutoSnapshot),
    processes s !! i = Some p ->
    exists p' : AutoSnapshot,
      processes s' !! i = Some p' /\
      targetHash_ p' = targetHash_ p /\
      snapshotCmd_ p' = snapshotCmd_ p /\
      (isRunning_ p = false -> isRunning_ p' = false).

(** * Properties *)

Example crc32_check_value : Hash.crc32HexHash "123456789" = "CBF43926".
Proof. vm_compute. reflexivity. Qed.

(** ** Setters and projections *)

Lemma set_checkingHashes_restore (s : Session) :
  checkingHashes s = false ->
  set_checkingHashes false (set_checkingHashes true s) = s.
Proof. destruct s; simpl; intros ->; reflexivity. Qed.

Lemma emitPackagesChanged_checking (b : bool) (s : Session) :
  emitPackagesChanged (set_checkingHashes b s)
  = set_checkingHashes b (emitPackagesChanged s).
Proof. reflexivity. Qed.

Lemma runningAutoSnapshot_checking (b : bool) (s : Session) :
  runningAutoSnapshot (set_checkingHashes b s) = runningAutoSnapshot s.
Proof. reflexivity. Qed.

Lemma performAutoSnapshot_checking (w : World) (h : string) (b : bool)
    (s : Session) :
  performAutoSnapshot w h (set_checkingHashes b s)
  = set_checkingHashes b (performAutoSnapshot w h s).
Proof.
  unfold performAutoSnapshot. rewrite runningAutoSnapshot_checking.
  destruct (runningAutoSnapshot s) as [p|]; [|reflexivity].
  destruct (String.eqb (targetHash_ p) h); reflexivity.
Qed.

Lemma performAutoSnapshot_guard (w : World) (h : string) (s : Session) :
  checkingHashes (performAutoSnapshot w h s) = checkingHashes s.
Proof.
  unfold performAutoSnapshot.
  destruct (runningAutoSnapshot s) as [p|]; [|reflexivity].
  destruct (String.eqb (targetHash_ p) h); reflexivity.
Qed.

Lemma getHash_checking (w : World) ty st (b : bool) (s : Session) :
  getHash w ty st (set_checkingHashes b s) = getHash w ty st s.
Proof. destruct st; reflexivity. Qed.

Lemma isHashUnresolved_checking (w : World) ty (b : bool) (s : Session) :
  isHashUnresolved w ty (set_checkingHashes b s) = isHashUnresolved w ty s.
Proof. reflexivity. Qed.

(** ** Stored hashes *)

(** The stored hash of [ty] in view [st], as [getHash] reads it. *)
Lemma getHash_stored (w : World) ty st (s : Session) :
  st <> HASH_STATE_COMPUTED ->
  getHash w ty st s =
    match projectPersistent s !! keyOfHashType ty st with
    | Some (JsonString str) => str
    | _ => ""
    end.
Proof.
  intros Hst. unfold getHash, getProjectPersistent.
  destruct st; try congruence;
    destruct (projectPersistent s !! _) as [[]|]; reflexivity.
Qed.

(** After [updateHash] the stored view reads as the computed hash. *)
Lemma updateHash_stores (w : World) ty st (s : Session) :
  st <> HASH_STATE_COMPUTED ->
  getHash w ty st (snd (updateHash w ty st s))
  = getHash w ty HASH_STATE_COMPUTED s.
Proof.
  intros Hst. unfold updateHash.
  destruct (String.eqb (getHash w ty HASH_STATE_COMPUTED s) (getHash w ty st s))
    eqn:E; simpl.
  - apply String.eqb_eq in E. symmetry. exact E.
  - rewrite getHash_stored by exact Hst. unfold putProjectPersistent. simpl.
    rewrite lookup_insert_eq. reflexivity.
Qed.

(** [updateHash] touches no entry but its own. *)
Lemma updateHash_other (w : World) ty st (s : Session) (key : string) :
  key <> keyOfHashType ty st ->
  projectPersistent (snd (updateHash w ty st s)) !! key
  = projectPersistent s !! key.
Proof.
  intros Hk. unfold updateHash. destruct (negb _); simpl; [|reflexivity].
  rewrite lookup_insert_ne by congruence. reflexivity.
Qed.

(** Everything but the persistent store is left alone by [updateHash]. *)
Lemma updateHash_frame (w : World) ty st (s : Session) :
  let s' := snd (updateHash w ty st s) in
  s_runningPackratAction s' = s_runningPackratAction s /\
  pendingSnapshots s' = pendingSnapshots s /\
  processes s' = processes s /\
  pAutoSnapshot s' = pAutoSnapshot s /\
  clientEvents s' = clientEvents s /\
  rCalls s' = rCalls s /\
  checkingHashes s' = checkingHashes s.
Proof. unfold updateHash. destruct (negb _); simpl; repeat split. Qed.

(** ** Pending actions *)

Lemma getPendingActions_null (w : World) action (s : Session) :
  getPendingActions w action None s
  = (pendingActionsRemain w action, None,
     set_rCalls (rCalls s ++ [RCallPendingActions (packratActionName action)]) s).
Proof.
  unfold getPendingActions, pendingActionsRemain.
  destruct (rs_pendingActions w _) as [actions|]; [|reflexivity].
  destruct (Nat.eqb (sexp_length actions) 0); reflexivity.
Qed.

Lemma getPendingActions_session (w : World) action pActions (s : Session) :
  snd (getPendingActions w action pActions s)
  = set_rCalls (rCalls s ++ [RCallPendingActions (packratActionName action)]) s.
Proof.
  unfold getPendingActions.
  destruct (rs_pendingActions w _) as [actions|]; [|reflexivity].
  destruct (Nat.eqb (sexp_length actions) 0); [reflexivity|].
  destruct pActions; [|reflexivity].
  destruct (jsonValueFromObject actions); reflexivity.
Qed.

Lemma afterPendingQuery_persistent (w : World) action hashType (s : Session) :
  projectPersistent (afterPendingQuery w action hashType s)
  = projectPersistent s.
Proof. unfold afterPendingQuery. destruct (negb _); reflexivity. Qed.

Lemma resolveStateAfterAction_unfold (w : World) action hashType (s : Session) :
  resolveStateAfterAction w action hashType s =
    let s2 := afterPendingQuery w action hashType s in
    if pendingActionsRemain w action then s2
    else snd (updateHash w HASH_TYPE_LOCKFILE HASH_STATE_RESOLVED
                (snd (updateHash w HASH_TYPE_LIBRARY HASH_STATE_RESOLVED s2))).
Proof.
  unfold resolveStateAfterAction. rewrite getPendingActions_null. simpl.
  destruct (pendingActionsRemain w action); reflexivity.
Qed.

Lemma resolveStateAfterAction_lookup (w : World) action hashType (s : Session)
    (key : string) :
  key <> keyOfHashType HASH_TYPE_LIBRARY HASH_STATE_RESOLVED ->
  key <> keyOfHashType HASH_TYPE_LOCKFILE HASH_STATE_RESOLVED ->
  projectPersistent (resolveStateAfterAction w action hashType s) !! key
  = projectPersistent s !! key.
Proof.
  intros H1 H2. rewrite resolveStateAfterAction_unfold. cbv zeta.
  destruct (pendingActionsRemain w action).
  - rewrite afterPendingQuery_persistent. reflexivity.
  - rewrite !updateHash_other by assumption.
    rewrite afterPendingQuery_persistent. reflexivity.
Qed.

Lemma observed_key_not_resolved ty ty' :
  keyOfHashType ty HASH_STATE_OBSERVED <> keyOfHashType ty' HASH_STATE_RESOLVED.
Proof. destruct ty, ty'; vm_compute; discriminate. Qed.

(** ** Joint resolution *)

Lemma resolveStateAfterAction_resolved (w : World) action hashType
    (s : Session) :
  let s' := resolveStateAfterAction w action hashType s in
  if pendingActionsRemain w action
  then projectPersistent s' = projectPersistent s
  else getHash w HASH_TYPE_LOCKFILE HASH_STATE_RESOLVED s'
         = computeLockfileHash w
       /\ getHash w HASH_TYPE_LIBRARY HASH_STATE_RESOLVED s'
         = computeLibraryHash w.
Proof.
  intros s'. subst s'. rewrite resolveStateAfterAction_unfold. cbv zeta.
  destruct (pendingActionsRemain w action).
  - apply afterPendingQuery_persistent.
  - split.
    + rewrite updateHash_stores by discriminate. reflexivity.
    + set (s2 := afterPendingQuery w action hashType s).
      rewrite (getHash_stored w HASH_TYPE_LIBRARY HASH_STATE_RESOLVED) by discriminate.
      rewrite updateHash_other by (vm_compute; discriminate).
      rewrite <- (getHash_stored w HASH_TYPE_LIBRARY HASH_STATE_RESOLVED) by discriminate.
      rewrite updateHash_stores by discriminate. reflexivity.
Qed.

(** C3. When [resolveStateAfterAction] runs (for SNAPSHOT, RESTORE, or any
    other action) and the pending-action query reports nothing remaining,
    the stored RESOLVED hash reads as the current computed hash for LOCKFILE
    and for LIBRARY alike; when the query reports pending actions, the
    persistent store is left as it was.  RESOLVED is never brought up to date
    for one entity only. *)
Theorem resolve_updates_both_or_neither :
  forall (w : World) (action : PackratActionType) (hashType : PackratHashType)
         (s : Session),
    let s' := resolveStateAfterAction w action hashType s in
    if fst (fst (getPendingActions w action None s))
    then projectPersistent s' = projectPersistent s
    else getHash w HASH_TYPE_LOCKFILE HASH_STATE_RESOLVED s'
           = getHash w HASH_TYPE_LOCKFILE HASH_STATE_COMPUTED s'
         /\ getHash w HASH_TYPE_LIBRARY HASH_STATE_RESOLVED s'
           = getHash w HASH_TYPE_LIBRARY HASH_STATE_COMPUTED s'.
Proof.
  intros w action hashType s s'. subst s'.
  rewrite getPendingActions_null. simpl fst.
  exact (resolveStateAfterAction_resolved w action hashType s).
Qed.

(** ** Frame properties of the persistent store *)

Lemma performAutoSnapshot_persistent (w : World) (h : string) (s : Session) :
  projectPersistent (performAutoSnapshot w h s) = projectPersistent s.
Proof.
  unfold performAutoSnapshot.
  destruct (runningAutoSnapshot s) as [p|]; [|reflexivity].
  destruct (String.eqb (targetHash_ p) h); reflexivity.
Qed.

Lemma checkHashes_persistent (w : World) ty st onMismatch (s : Session) :
  (forall o n s0, projectPersistent (onMismatch o n s0) = projectPersistent s0) ->
  projectPersistent (checkHashes w ty st onMismatch s) = projectPersistent s.
Proof.
  intros Hcb. unfold checkHashes.
  destruct (checkingHashes s); [reflexivity|]. simpl.
  destruct (String.eqb _ _); [reflexivity|]. rewrite Hcb. reflexivity.
Qed.

Lemma onLibraryUpdate_persistent (w : World) (o n : string) (s : Session) :
  projectPersistent (onLibraryUpdate w o n s) = projectPersistent s.
Proof.
  unfold onLibraryUpdate. destruct (negb _); [|reflexivity].
  apply performAutoSnapshot_persistent.
Qed.

Lemma onFileChanged_persistent (w : World) (p : FilePath) (s : Session) :
  projectPersistent (onFileChanged w p s) = projectPersistent s.
Proof.
  unfold onFileChanged.
  destruct (negb (bool_decide _)); [reflexivity|].
  destruct (String.eqb (filename p) kPackratLockfile).
  - apply checkHashes_persistent. reflexivity.
  - destruct (_ && _); [|reflexivity].
    destruct (_ || _); [reflexivity|].
    apply checkHashes_persistent. intros. apply onLibraryUpdate_persistent.
Qed.

Lemma onFilesChanged_persistent (w : World) (ps : list FilePath) (s : Session) :
  projectPersistent (onFilesChanged w ps s) = projectPersistent s.
Proof.
  unfold onFilesChanged. revert s.
  induction ps as [|p ps IH]; intros s; simpl; [reflexivity|].
  rewrite IH. apply onFileChanged_persistent.
Qed.

Lemma pendingSnapshot_lookup (w : World) action (s : Session) (key : string) :
  key <> keyOfHashType HASH_TYPE_LIBRARY HASH_STATE_RESOLVED ->
  key <> keyOfHashType HASH_TYPE_LOCKFILE HASH_STATE_RESOLVED ->
  projectPersistent (pendingSnapshot w action s) !! key
  = projectPersistent s !! key.
Proof.
  intros H1 H2. destruct action; simpl; [reflexivity|].
  destruct (0 <? pendingSnapshots s).
  - rewrite performAutoSnapshot_persistent. reflexivity.
  - apply resolveStateAfterAction_lookup; assumption.
Qed.

Lemma onProcessCompleted_lookup (w : World) pid status (s : Session)
    (key : string) :
  key <> keyOfHashType HASH_TYPE_LIBRARY HASH_STATE_RESOLVED ->
  key <> keyOfHashType HASH_TYPE_LOCKFILE HASH_STATE_RESOLVED ->
  projectPersistent (onProcessCompleted w pid status s) !! key
  = projectPersistent s !! key.
Proof.
  intros H1 H2. unfold onProcessCompleted.
  destruct (processes s !! pid) as [p|]; [|reflexivity].
  destruct (isRunning_ p); [|reflexivity].
  unfold onCompleted. destruct (negb _); [reflexivity|].
  rewrite pendingSnapshot_lookup by assumption. reflexivity.
Qed.

Lemma onPackratAction_lookup (w : World) project action running (s : Session)
    (key : string) :
  key <> keyOfHashType HASH_TYPE_LIBRARY HASH_STATE_RESOLVED ->
  key <> keyOfHashType HASH_TYPE_LOCKFILE HASH_STATE_RESOLVED ->
  projectPersistent (onPackratAction w project action running s) !! key
  = projectPersistent s !! key.
Proof.
  intros H1 H2. unfold onPackratAction.
  destruct (negb _); [reflexivity|]. destruct running; [reflexivity|].
  destruct (s_runningPackratAction s); try reflexivity;
    rewrite resolveStateAfterAction_lookup by assumption; reflexivity.
Qed.

Lemma annotatePendingActions_persistent (w : World) (s : Session) :
  projectPersistent (snd (annotatePendingActions w s))
  = projectPersistent
      (snd (updateHash w HASH_TYPE_LOCKFILE HASH_STATE_OBSERVED
              (snd (updateHash w HASH_TYPE_LIBRARY HASH_STATE_OBSERVED s)))).
Proof.
  unfold annotatePendingActions. cbv zeta. simpl snd at 1.
  rewrite getPendingActions_session. simpl.
  destruct (negb (String.eqb (fst (updateHash w HASH_TYPE_LOCKFILE _ _)) _));
    destruct (negb (String.eqb (fst (updateHash w HASH_TYPE_LIBRARY _ _)) _));
    rewrite ?getPendingActions_session; reflexivity.
Qed.

Lemma annotatePendingActions_lookup (w : World) (s : Session) (key : string) :
  key <> keyOfHashType HASH_TYPE_LIBRARY HASH_STATE_OBSERVED ->
  key <> keyOfHashType HASH_TYPE_LOCKFILE HASH_STATE_OBSERVED ->
  projectPersistent (snd (annotatePendingActions w s)) !! key
  = projectPersistent s !! key.
Proof.
  intros H1 H2. rewrite annotatePendingActions_persistent.
  rewrite !updateHash_other by assumption. reflexivity.
Qed.

(** C9. Handling a file-change event (one path, a batch, or the scheduler
    request it may lead to) leaves the whole persistent store as it was.  The
    stored OBSERVED entries change only in [annotatePendingActions], which
    leaves every RESOLVED entry alone; the stored RESOLVED entries change
    only on the resolution path (an action stop or a subprocess exit), which
    leaves every OBSERVED entry alone. *)
Theorem file_events_write_no_hash_state :
  forall (w : World) (ev : Event) (s : Session) (ty : PackratHashType),
    match ev with
    | FileChanged _ | FilesChanged _ | RequestSnapshot _ =>
        projectPersistent (handle w ev s) = projectPersistent s
    | AnnotatePendingActions =>
        projectPersistent (handle w ev s) !! keyOfHashType ty HASH_STATE_RESOLVED
        = projectPersistent s !! keyOfHashType ty HASH_STATE_RESOLVED
    | PackratAction _ _ _ | ProcessCompleted _ _ =>
        projectPersistent (handle w ev s) !! keyOfHashType ty HASH_STATE_OBSERVED
        = projectPersistent s !! keyOfHashType ty HASH_STATE_OBSERVED
    end.
Proof.
  intros w ev s ty. destruct ev; simpl.
  - apply onFileChanged_persistent.
  - apply onFilesChanged_persistent.
  - apply onPackratAction_lookup; apply observed_key_not_resolved.
  - apply onProcessCompleted_lookup; apply observed_key_not_resolved.
  - apply annotatePendingActions_lookup;
      apply not_eq_sym, observed_key_not_resolved.
  - apply performAutoSnapshot_persistent.
Qed.

(** ** The scheduler invariant *)

Lemma sameSched_refl (s : Session) : sameSched s s.
Proof. repeat split. Qed.

Lemma sameSched_trans (s1 s2 s3 : Session) :
  sameSched s1 s2 -> sameSched s2 s3 -> sameSched s1 s3.
Proof.
  intros (A1 & A2 & A3) (B1 & B2 & B3). repeat split; congruence.
Qed.

Lemma sameSched_inv (s s' : Session) :
  sameSched s s' -> SchedInv s -> SchedInv s'.
Proof.
  intros (E1 & E2 & E3) [Hrun Hint]. split.
  - intros i p. rewrite E1, E2. apply Hrun.
  - rewrite E3. exact Hint.
Qed.

Lemma SchedInv_initial : SchedInv initialSession.
Proof.
  split.
  - intros i p H. simpl in H. rewrite lookup_nil in H. discriminate.
  - simpl. unfold INT_MIN, INT_MAX. lia.
Qed.

Lemma int_wrap_range (z : Z) : INT_MIN <= int_wrap z <= INT_MAX.
Proof.
  unfold int_wrap, INT_MIN, INT_MAX.
  pose proof (Z.mod_pos_bound (z + 2147483648) 4294967296 ltac:(lia)). lia.
Qed.

Lemma int_wrap_id (z : Z) : INT_MIN <= z <= INT_MAX -> int_wrap z = z.
Proof.
  unfold int_wrap, INT_MIN, INT_MAX. intros H.
  rewrite Z.mod_small by lia. lia.
Qed.

Lemma updateHash_sameSched (w : World) ty st (s : Session) :
  sameSched s (snd (updateHash w ty st s)).
Proof. unfold updateHash. destruct (negb _); repeat split. Qed.

Lemma afterPendingQuery_sameSched (w : World) action hashType (s : Session) :
  sameSched s (afterPendingQuery w action hashType s).
Proof. unfold afterPendingQuery. destruct (negb _); repeat split. Qed.

Lemma resolveStateAfterAction_sameSched (w : World) action hashType
    (s : Session) :
  sameSched s (resolveStateAfterAction w action hashType s).
Proof.
  rewrite resolveStateAfterAction_unfold. cbv zeta.
  destruct (pendingActionsRemain w action).
  - apply afterPendingQuery_sameSched.
  - eapply sameSched_trans; [apply afterPendingQuery_sameSched|].
    eapply sameSched_trans; apply updateHash_sameSched.
Qed.

Lemma runningAutoSnapshot_lookup (s : Session) (p : AutoSnapshot) :
  runningAutoSnapshot s = Some p ->
  exists i, pAutoSnapshot s = Some i /\ processes s !! i = Some p
            /\ isRunning_ p = true.
Proof.
  unfold runningAutoSnapshot.
  destruct (pAutoSnapshot s) as [i|]; [|discriminate].
  destruct (processes s !! i) as [q|] eqn:E; [|discriminate].
  destruct (isRunning_ q) eqn:R; [|discriminate].
  intros [= <-]. exists i. auto.
Qed.

Lemma runningAutoSnapshot_None (s : Session) (i : nat) (p : AutoSnapshot) :
  SchedInv s -> runningAutoSnapshot s = None ->
  processes s !! i = Some p -> isRunning_ p = false.
Proof.
  intros [Hrun _] Hnone Hi. destruct (isRunning_ p) eqn:R; [|reflexivity].
  pose proof (Hrun i p Hi R) as Hptr.
  unfold runningAutoSnapshot in Hnone. rewrite Hptr, Hi, R in Hnone.
  discriminate.
Qed.

Lemma performAutoSnapshot_inv (w : World) (h : string) (s : Session) :
  SchedInv s -> SchedInv (performAutoSnapshot w h s).
Proof.
  intros Hinv. unfold performAutoSnapshot.
  destruct (runningAutoSnapshot s) as [p|] eqn:Hrun.
  - destruct (String.eqb (targetHash_ p) h); [exact Hinv|].
    destruct Hinv as [H1 H2]. split; [exact H1|]. simpl. apply int_wrap_range.
  - split; [|apply Hinv]. simpl. intros i p Hi Hp.
    destruct (decide (i < List.length (processes s))%nat) as [Hlt|Hge].
    + rewrite lookup_app_l in Hi by exact Hlt.
      rewrite (runningAutoSnapshot_None s i p Hinv Hrun Hi) in Hp. discriminate.
    + destruct (decide (i = List.length (processes s))) as [->|Hne];
        [reflexivity|].
      rewrite lookup_ge_None_2 in Hi; [discriminate|].
      rewrite length_app. simpl. lia.
Qed.

Lemma pendingSnapshot_inv (w : World) action (s : Session) :
  SchedInv s -> SchedInv (pendingSnapshot w action s).
Proof.
  intros Hinv. destruct action; simpl.
  - destruct Hinv as [H1 H2]. split; [exact H1|]. simpl. apply int_wrap_range.
  - destruct (0 <? pendingSnapshots s).
    + apply performAutoSnapshot_inv. destruct Hinv as [H1 H2].
      split; [exact H1|]. simpl. unfold INT_MIN, INT_MAX. lia.
    + eapply sameSched_inv; [apply resolveStateAfterAction_sameSched|exact Hinv].
Qed.

Lemma onProcessCompleted_inv (w : World) pid status (s : Session) :
  SchedInv s -> SchedInv (onProcessCompleted w pid status s).
Proof.
  intros Hinv. unfold onProcessCompleted.
  destruct (processes s !! pid) as [p|] eqn:Hpid; [|exact Hinv].
  destruct (isRunning_ p) eqn:Hp; [|exact Hinv].
  unfold onCompleted. destruct Hinv as [H1 H2].
  assert (SchedInv
            (set_processes (<[pid := markCompleted p]> (processes s)) s))
    as Hmid.
  { split; [|exact H2]. simpl. intros i q Hi Hq.
    destruct (decide (i = pid)) as [->|Hne].
    - rewrite list_lookup_insert_eq in Hi
        by (eapply lookup_lt_Some; exact Hpid).
      injection Hi as <-. discriminate Hq.
    - rewrite list_lookup_insert_ne in Hi by congruence. eauto. }
  destruct (negb _); [exact Hmid|]. apply pendingSnapshot_inv. exact Hmid.
Qed.

Lemma checkHashes_inv (w : World) ty st onMismatch (s : Session) :
  (forall o n s0, SchedInv s0 -> SchedInv (onMismatch o n s0)) ->
  SchedInv s -> SchedInv (checkHashes w ty st onMismatch s).
Proof.
  intros Hcb Hinv. unfold checkHashes.
  destruct (checkingHashes s); [exact Hinv|].
  assert (SchedInv (set_checkingHashes true s)) as H1 by exact Hinv.
  destruct (String.eqb _ _); [exact Hinv|].
  exact (Hcb _ _ _ H1).
Qed.

Lemma onLibraryUpdate_inv (w : World) (o n : string) (s : Session) :
  SchedInv s -> SchedInv (onLibraryUpdate w o n s).
Proof.
  intros Hinv. unfold onLibraryUpdate. destruct (negb _).
  - apply performAutoSnapshot_inv. exact Hinv.
  - exact Hinv.
Qed.

Lemma onFileChanged_inv (w : World) (p : FilePath) (s : Session) :
  SchedInv s -> SchedInv (onFileChanged w p s).
Proof.
  intros Hinv. unfold onFileChanged.
  destruct (negb (bool_decide _)); [exact Hinv|].
  destruct (String.eqb (filename p) kPackratLockfile).
  - apply checkHashes_inv; [|exact Hinv]. intros o n s0 H0. exact H0.
  - destruct (_ && _); [|exact Hinv].
    destruct (_ || _); [exact Hinv|].
    apply checkHashes_inv; [|exact Hinv]. intros. apply onLibraryUpdate_inv.
    assumption.
Qed.

Lemma onFilesChanged_inv (w : World) (ps : list FilePath) (s : Session) :
  SchedInv s -> SchedInv (onFilesChanged w ps s).
Proof.
  unfold onFilesChanged. revert s.
  induction ps as [|p ps IH]; intros s Hinv; simpl; [exact Hinv|].
  apply IH, onFileChanged_inv, Hinv.
Qed.

Lemma onPackratAction_inv (w : World) project action running (s : Session) :
  SchedInv s -> SchedInv (onPackratAction w project action running s).
Proof.
  intros Hinv. unfold onPackratAction.
  destruct (negb _); [exact Hinv|]. destruct running; [exact Hinv|].
  destruct (s_runningPackratAction s); try exact Hinv;
    (eapply sameSched_inv; [apply resolveStateAfterAction_sameSched|exact Hinv]).
Qed.

Lemma annotatePendingActions_sameSched (w : World) (s : Session) :
  sameSched s (snd (annotatePendingActions w s)).
Proof.
  unfold annotatePendingActions. cbv zeta. simpl snd at 1.
  rewrite getPendingActions_session.
  assert (forall (b : bool) a v s0,
             sameSched s0
               (snd (if b then getPendingActions w a (Some v) s0
                     else (false, Some v, s0)))) as Hstep.
  { intros [] a v s0; [|apply sameSched_refl].
    rewrite getPendingActions_session. repeat split. }
  eapply sameSched_trans; [apply updateHash_sameSched|].
  eapply sameSched_trans; [apply updateHash_sameSched|].
  eapply sameSched_trans; [apply Hstep|].
  eapply sameSched_trans; [apply Hstep|].
  repeat split.
Qed.

Lemma handle_inv (w : World) (ev : Event) (s : Session) :
  SchedInv s -> SchedInv (handle w ev s).
Proof.
  intros Hinv. destruct ev; simpl.
  - apply onFileChanged_inv, Hinv.
  - apply onFilesChanged_inv, Hinv.
  - apply onPackratAction_inv, Hinv.
  - apply onProcessCompleted_inv, Hinv.
  - eapply sameSched_inv; [apply annotatePendingActions_sameSched|exact Hinv].
  - apply performAutoSnapshot_inv, Hinv.
Qed.

Lemma run_inv (tr : list (World * Event)) (s : Session) :
  SchedInv s -> SchedInv (run tr s).
Proof.
  unfold run. revert s.
  induction tr as [|[w ev] tr IH]; intros s Hinv; simpl; [exact Hinv|].
  apply IH, handle_inv, Hinv.
Qed.

Lemma reachable_inv (tr : list (World * Event)) :
  SchedInv (run tr initialSession).
Proof. apply run_inv, SchedInv_initial. Qed.

(** ** Active subprocesses *)

Lemma filter_running_nil (l : list AutoSnapshot) :
  (forall i x, l !! i = Some x -> isRunning_ x = false) ->
  List.filter isRunning_ l = [].
Proof.
  induction l as [|x l IH]; intros H; simpl; [reflexivity|].
  rewrite (H 0%nat x eq_refl). apply IH. intros i y Hi. exact (H (S i) y Hi).
Qed.

Lemma filter_running_at (l : list AutoSnapshot) (k : nat) :
  (forall i x, l !! i = Some x -> isRunning_ x = true -> i = k) ->
  List.filter isRunning_ l =
    match l !! k with
    | Some p => if isRunning_ p then [p] else []
    | None => []
    end.
Proof.
  revert k. induction l as [|x l IH]; intros k H; simpl.
  - destruct k; reflexivity.
  - destruct k as [|k]; simpl.
    + rewrite (filter_running_nil l).
      * destruct (isRunning_ x); reflexivity.
      * intros i y Hi. destruct (isRunning_ y) eqn:R; [|reflexivity].
        specialize (H (S i) y Hi R). discriminate.
    + destruct (isRunning_ x) eqn:R.
      * specialize (H 0%nat x eq_refl R). discriminate.
      * apply IH. intros i y Hi Hy. specialize (H (S i) y Hi Hy). lia.
Qed.

(** Under the invariant the active subprocesses are exactly the run the
    scheduler points to, if any. *)
Lemma activeProcesses_running (s : Session) :
  SchedInv s ->
  activeProcesses s =
    match runningAutoSnapshot s with
    | Some p => [p]
    | None => []
    end.
Proof.
  intros Hinv. unfold activeProcesses.
  destruct (runningAutoSnapshot s) as [p|] eqn:Hrun.
  - destruct (runningAutoSnapshot_lookup s p Hrun) as (k & Hk & Hp & Hr).
    rewrite (filter_running_at _ k).
    + rewrite Hp, Hr. reflexivity.
    + intros i x Hi Hx. destruct Hinv as [H1 _].
      specialize (H1 i x Hi Hx). congruence.
  - apply filter_running_nil. intros i x Hi.
    exact (runningAutoSnapshot_None s i x Hinv Hrun Hi).
Qed.

Lemma activeProcesses_le_1 (s : Session) :
  SchedInv s -> (List.length (activeProcesses s) <= 1)%nat.
Proof.
  intros Hinv. rewrite activeProcesses_running by exact Hinv.
  destruct (runningAutoSnapshot s); simpl; lia.
Qed.

(** C1. In every session reachable from the initial one by any sequence of
    events (scheduler requests, file changes, action notifications,
    subprocess exits, status queries, each in whatever world it happens), at
    most one snapshot subprocess is active, before and after a further
    request.  If a run [p] is active when [performAutoSnapshot w h] is
    called, it stays the only one and no subprocess is created; when [h] is
    the target of [p] the session is unchanged, and when it differs the only
    change is the pending counter, incremented (by one, unless it already
    holds [INT_MAX]). *)
Theorem at_most_one_snapshot_subprocess :
  forall (tr : list (World * Event)) (w : World) (h : string),
    let s := run tr initialSession in
    let s' := performAutoSnapshot w h s in
    (List.length (activeProcesses s) <= 1)%nat /\
    (List.length (activeProcesses s') <= 1)%nat /\
    forall p : AutoSnapshot,
      In p (activeProcesses s) ->
      activeProcesses s = [p] /\
      activeProcesses s' = [p] /\
      processes s' = processes s /\
      (targetHash_ p = h -> s' = s) /\
      (targetHash_ p <> h ->
         s' = set_pendingSnapshots (int_incr (pendingSnapshots s)) s /\
         (pendingSnapshots s < INT_MAX ->
            pendingSnapshots s' = pendingSnapshots s + 1)).
Proof.
  intros tr w h s s'.
  assert (SchedInv s) as Hinv by apply reachable_inv.
  assert (SchedInv s') as Hinv' by (apply performAutoSnapshot_inv, Hinv).
  split; [apply activeProcesses_le_1, Hinv|].
  split; [apply activeProcesses_le_1, Hinv'|].
  intros p Hin.
  rewrite (activeProcesses_running s Hinv) in Hin |- *.
  destruct (runningAutoSnapshot s) as [q|] eqn:Hrun; [|destruct Hin].
  destruct Hin as [->|[]].
  assert (s' = if String.eqb (targetHash_ p) h then s
               else pendingSnapshot_set s) as Hs'.
  { subst s'. unfold performAutoSnapshot. rewrite Hrun. reflexivity. }
  assert (runningAutoSnapshot s' = Some p) as Hrun'.
  { rewrite Hs'. destruct (String.eqb (targetHash_ p) h); exact Hrun. }
  split; [reflexivity|].
  split; [rewrite (activeProcesses_running s' Hinv'), Hrun'; reflexivity|].
  split; [rewrite Hs'; destruct (String.eqb (targetHash_ p) h); reflexivity|].
  split.
  - intros Heq. apply String.eqb_eq in Heq. rewrite Hs', Heq. reflexivity.
  - intros Hne. apply String.eqb_neq in Hne. rewrite Hs', Hne.
    split; [reflexivity|]. intros Hlt. simpl. unfold int_incr.
    apply int_wrap_id. destruct Hinv as [_ Hrange].
    unfold INT_MIN, INT_MAX in *. lia.
Qed.

Lemma at_most_one_snapshot_subprocess_witness :
  let w := Scenario.world None [] Scenario.noPending in
  let s := run [(w, RequestSnapshot "H1")] initialSession in
  pendingSnapshots (performAutoSnapshot w "H1" s) = 0 /\
  pendingSnapshots (performAutoSnapshot w "H2" s) = 1 /\
  processes (performAutoSnapshot w "H2" s) = processes s.
Proof.
  intros w s.
  pose (p := {| targetHash_ := "H1"; snapshotCmd_ := "packrat::snapshot()";
                isRunning_ := true |}).
  assert (In p (activeProcesses s)) as Hin by (left; reflexivity).
  subst s.
  destruct (at_most_one_snapshot_subprocess
              [(w, RequestSnapshot "H1")] w "H1") as (_ & _ & Hsame).
  destruct (at_most_one_snapshot_subprocess
              [(w, RequestSnapshot "H1")] w "H2") as (_ & _ & Hdiff).
  destruct (Hsame p Hin) as (_ & _ & _ & Heq & _).
  destruct (Hdiff p Hin) as (_ & _ & Hprocs & _ & Hne).
  split; [rewrite (Heq eq_refl); reflexivity|].
  split; [|exact Hprocs].
  destruct (Hne ltac:(discriminate)) as [_ Hincr].
  rewrite Hincr; [reflexivity|]. vm_compute. reflexivity.
Defined.

(** C2. In any reachable session, when a running snapshot subprocess exits
    with status 0 while the pending counter is positive, the counter is
    reset to 0 and a new subprocess is started at once; its target is the
    library hash computed in the world of the exit, whatever was requested
    before.  Nothing is resolved on that exit: no pending-actions query is
    made, no client event is enqueued and the persistent store is
    untouched. *)
Theorem exit_with_pending_restarts_fresh :
  forall (tr : list (World * Event)) (w : World) (pid : nat)
         (p : AutoSnapshot),
    let s := run tr initialSession in
    processes s !! pid = Some p ->
    isRunning_ p = true ->
    0 < pendingSnapshots s ->
    let s' := onProcessCompleted w pid 0 s in
    pendingSnapshots s' = 0 /\
    processes s'
      = <[pid := markCompleted p]> (processes s)
        ++ [startedFor w (computeLibraryHash w)] /\
    pAutoSnapshot s' = Some (List.length (processes s)) /\
    activeProcesses s' = [startedFor w (computeLibraryHash w)] /\
    projectPersistent s' = projectPersistent s /\
    clientEvents s' = clientEvents s /\
    rCalls s' = rCalls s ++ [RCallGetAutoSnapshotCmd] /\
    s_runningPackratAction s' = s_runningPackratAction s.
Proof.
  intros tr w pid p s Hpid Hp Hpos s'.
  assert (SchedInv s) as Hinv by apply reachable_inv.
  assert (SchedInv s') as Hinv' by (apply onProcessCompleted_inv, Hinv).
  assert (pAutoSnapshot s = Some pid) as Hptr
    by (destruct Hinv as [H1 _]; exact (H1 pid p Hpid Hp)).
  assert (s' =
            set_pAutoSnapshot (Some (List.length (processes s)))
              (set_processes
                 (<[pid := markCompleted p]> (processes s)
                  ++ [startedFor w (computeLibraryHash w)])
                 (set_rCalls (rCalls s ++ [RCallGetAutoSnapshotCmd])
                    (set_pendingSnapshots 0 s)))) as Hs'.
  { subst s'. unfold onProcessCompleted. rewrite Hpid, Hp.
    unfold onCompleted. simpl negb. cbv iota.
    unfold pendingSnapshot. simpl pendingSnapshots.
    apply Z.ltb_lt in Hpos. rewrite Hpos.
    unfold performAutoSnapshot, runningAutoSnapshot. simpl.
    rewrite Hptr, list_lookup_insert_eq
      by (eapply lookup_lt_Some; exact Hpid).
    simpl. rewrite length_insert. reflexivity. }
  assert (runningAutoSnapshot s' = Some (startedFor w (computeLibraryHash w)))
    as Hrun'.
  { rewrite Hs'. unfold runningAutoSnapshot. simpl.
    rewrite lookup_app_r by (rewrite length_insert; lia).
    rewrite length_insert, Nat.sub_diag. reflexivity. }
  rewrite (activeProcesses_running s' Hinv'), Hrun'.
  rewrite Hs'. simpl. repeat split.
Qed.

Lemma exit_with_pending_restarts_fresh_witness :
  let w1 := Scenario.world None [("a", "Package: a")] Scenario.noPending in
  let w2 := Scenario.world None [("a", "Package: a"); ("b", "Package: b")]
              Scenario.noPending in
  let s := run [(w1, RequestSnapshot "H1"); (w1, RequestSnapshot "H2")]
             initialSession in
  pendingSnapshots s = 1 /\
  pendingSnapshots (onProcessCompleted w2 0 0 s) = 0 /\
  targetHash_ <$> activeProcesses (onProcessCompleted w2 0 0 s)
    = [computeLibraryHash w2].
Proof.
  intros w1 w2 s. subst s.
  destruct (exit_with_pending_restarts_fresh
              [(w1, RequestSnapshot "H1"); (w1, RequestSnapshot "H2")]
              w2 0%nat (startedFor w1 "H1")
              eq_refl eq_refl eq_refl) as (H0 & _ & _ & Hact & _).
  split; [reflexivity|]. split; [exact H0|].
  rewrite Hact. reflexivity.
Defined.

(** ** Reactions to a library change *)

(** C6. When [checkHashes] is entered (not re-entrantly) for LIBRARY and the
    observed library hash differs from the computed one: if the LOCKFILE is
    unresolved, that is, its OBSERVED and RESOLVED hashes are both non-empty
    and differ, the only effect is one enqueued client refresh (no request,
    no subprocess, counter unchanged); otherwise the effect is exactly that
    of [performAutoSnapshot] called with the computed library hash. *)
Theorem library_change_reaction :
  forall (w : World) (s : Session),
    checkingHashes s = false ->
    getHash w HASH_TYPE_LIBRARY HASH_STATE_OBSERVED s
      <> getHash w HASH_TYPE_LIBRARY HASH_STATE_COMPUTED s ->
    let s' :=
      checkHashes w HASH_TYPE_LIBRARY HASH_STATE_OBSERVED (onLibraryUpdate w) s in
    let observed := getHash w HASH_TYPE_LOCKFILE HASH_STATE_OBSERVED s in
    let resolved := getHash w HASH_TYPE_LOCKFILE HASH_STATE_RESOLVED s in
    (observed <> "" /\ resolved <> "" /\ observed <> resolved ->
       s' = emitPackagesChanged s /\
       processes s' = processes s /\
       pAutoSnapshot s' = pAutoSnapshot s /\
       pendingSnapshots s' = pendingSnapshots s /\
       clientEvents s' = clientEvents s ++ [kInstalledPackagesChanged]) /\
    (~ (observed <> "" /\ resolved <> "" /\ observed <> resolved) ->
       s' = performAutoSnapshot w (computeLibraryHash w) s).
Proof.
  intros w s Hguard Hdiff s' observed resolved.
  apply String.eqb_neq in Hdiff.
  assert (s' = set_checkingHashes false
                 (onLibraryUpdate w
                    (getHash w HASH_TYPE_LIBRARY HASH_STATE_OBSERVED s)
                    (computeLibraryHash w) (set_checkingHashes true s)))
    as Hs'.
  { subst s'. unfold checkHashes. rewrite Hguard.
    rewrite !getHash_checking, Hdiff. reflexivity. }
  unfold onLibraryUpdate in Hs'. rewrite isHashUnresolved_checking in Hs'.
  assert (isHashUnresolved w HASH_TYPE_LOCKFILE s = true
          <-> observed <> "" /\ resolved <> "" /\ observed <> resolved)
    as Hunres.
  { unfold isHashUnresolved. fold observed resolved.
    destruct (String.eqb observed "") eqn:E1; simpl.
    - apply String.eqb_eq in E1. split; [discriminate|]. tauto.
    - apply String.eqb_neq in E1.
      destruct (String.eqb resolved "") eqn:E2; simpl.
      + apply String.eqb_eq in E2. split; [discriminate|]. tauto.
      + apply String.eqb_neq in E2.
        destruct (String.eqb observed resolved) eqn:E3; simpl.
        * apply String.eqb_eq in E3. split; [discriminate|]. tauto.
        * apply String.eqb_neq in E3. tauto. }
  split.
  - intros Hu. apply Hunres in Hu. rewrite Hu in Hs'. simpl negb in Hs'.
    cbv iota in Hs'.
    rewrite emitPackagesChanged_checking, set_checkingHashes_restore in Hs'
      by exact Hguard.
    rewrite Hs'. repeat split.
  - intros Hu.
    destruct (isHashUnresolved w HASH_TYPE_LOCKFILE s) eqn:E.
    + exfalso. apply Hu, Hunres. reflexivity.
    + simpl negb in Hs'. cbv iota in Hs'.
      rewrite performAutoSnapshot_checking in Hs'. rewrite Hs'.
      apply set_checkingHashes_restore.
      rewrite performAutoSnapshot_guard. exact Hguard.
Qed.

Lemma library_change_reaction_witness :
  let w := Scenario.world (Some "X") [("a", "Package: a")] Scenario.noPending in
  let unresolved :=
    set_projectPersistent
      (<["packratLockfileObserved" := JsonString "B7B2364B"]>
         (<["packratLockfileResolved" := JsonString "00000000"]> ∅))
      initialSession in
  let react :=
    checkHashes w HASH_TYPE_LIBRARY HASH_STATE_OBSERVED (onLibraryUpdate w) in
  (clientEvents (react unresolved) = [kInstalledPackagesChanged]
   /\ processes (react unresolved) = [])
  /\ react initialSession = performAutoSnapshot w "A4DCA127" initialSession.
Proof.
  intros w unresolved react. split.
  - destruct (library_change_reaction w unresolved eq_refl
                ltac:(vm_compute; discriminate)) as [Hu _].
    destruct Hu as (_ & Hprocs & _ & _ & Hevents).
    + vm_compute. repeat split; discriminate.
    + split; [exact Hevents | exact Hprocs].
  - destruct (library_change_reaction w initialSession eq_refl
                ltac:(vm_compute; discriminate)) as [_ Hr].
    apply Hr. vm_compute. intros (H & _). apply H. reflexivity.
Defined.

(** ** Suppression while an action runs *)

Lemma onFileChanged_while_running (w : World) (p : FilePath) (s : Session) :
  s_runningPackratAction s <> PACKRAT_ACTION_NONE -> onFileChanged w p s = s.
Proof.
  intros H. unfold onFileChanged.
  rewrite bool_decide_eq_false_2 by exact H. reflexivity.
Qed.

Lemma onFilesChanged_while_running (w : World) (ps : list FilePath)
    (s : Session) :
  s_runningPackratAction s <> PACKRAT_ACTION_NONE -> onFilesChanged w ps s = s.
Proof.
  intros H. unfold onFilesChanged.
  induction ps as [|p ps IH]; simpl; [reflexivity|].
  rewrite onFileChanged_while_running by exact H. exact IH.
Qed.

Lemma run_file_events_while_running (tr : list (World * Event)) (s : Session) :
  s_runningPackratAction s <> PACKRAT_ACTION_NONE ->
  Forall (fun we => isFileEvent (snd we) = true) tr ->
  run tr s = s.
Proof.
  intros H Hall. unfold run.
  induction Hall as [|[w ev] tr Hev Hall IH]; simpl; [reflexivity|].
  destruct ev; simpl in Hev; try discriminate; simpl.
  - rewrite onFileChanged_while_running by exact H. exact IH.
  - rewrite onFilesChanged_while_running by exact H. exact IH.
Qed.

Lemma packratAction_not_none (action : string) :
  packratAction action <> PACKRAT_ACTION_NONE.
Proof.
  unfold packratAction.
  destruct (String.eqb action kPackratActionSnapshot); [discriminate|].
  destruct (String.eqb action kPackratActionRestore); [discriminate|].
  destruct (String.eqb action kPackratActionClean); discriminate.
Qed.

Lemma resolveStateAfterAction_running (w : World) action hashType
    (s : Session) :
  s_runningPackratAction (resolveStateAfterAction w action hashType s)
  = s_runningPackratAction s.
Proof.
  rewrite resolveStateAfterAction_unfold. cbv zeta.
  assert (s_runningPackratAction (afterPendingQuery w action hashType s)
          = s_runningPackratAction s) as H0
    by (unfold afterPendingQuery; destruct (negb _); reflexivity).
  destruct (pendingActionsRemain w action); [exact H0|].
  destruct (updateHash_frame w HASH_TYPE_LOCKFILE HASH_STATE_RESOLVED
              (snd (updateHash w HASH_TYPE_LIBRARY HASH_STATE_RESOLVED
                      (afterPendingQuery w action hashType s)))) as [-> _].
  destruct (updateHash_frame w HASH_TYPE_LIBRARY HASH_STATE_RESOLVED
              (afterPendingQuery w action hashType s)) as [-> _].
  exact H0.
Qed.

Lemma onPackratAction_stop_clears (w : World) (project action : string)
    (s : Session) :
  realPathsEqual w project = true ->
  s_runningPackratAction (onPackratAction w project action false s)
  = PACKRAT_ACTION_NONE.
Proof.
  intros Hproj. unfold onPackratAction. rewrite Hproj. simpl.
  destruct (s_runningPackratAction s); try reflexivity;
    apply resolveStateAfterAction_running.
Qed.

(** C7. Once a start event for the current project has recorded a running
    action (snapshot, restore, clean, or any other name), every file-change
    event, single or batched, in whatever world, leaves the session exactly
    as it is: nothing is compared, enqueued or requested.  This lasts until
    the stop event, which clears the recorded action. *)
Theorem file_events_ignored_while_action_runs :
  forall (w : World) (project action : string) (s : Session),
    realPathsEqual w project = true ->
    let s1 := onPackratAction w project action true s in
    s_runningPackratAction s1 <> PACKRAT_ACTION_NONE /\
    (forall w' p, onFileChanged w' p s1 = s1) /\
    (forall w' ps, onFilesChanged w' ps s1 = s1) /\
    (forall tr, Forall (fun we => isFileEvent (snd we) = true) tr ->
                run tr s1 = s1) /\
    (forall w' project' action',
        realPathsEqual w' project' = true ->
        s_runningPackratAction (onPackratAction w' project' action' false s1)
        = PACKRAT_ACTION_NONE).
Proof.
  intros w project action s Hproj s1.
  assert (s_runningPackratAction s1 <> PACKRAT_ACTION_NONE) as Hrun.
  { subst s1. unfold onPackratAction. rewrite Hproj. simpl.
    apply packratAction_not_none. }
  split; [exact Hrun|].
  split; [intros; apply onFileChanged_while_running, Hrun|].
  split; [intros; apply onFilesChanged_while_running, Hrun|].
  split; [intros; apply run_file_events_while_running; assumption|].
  intros. apply onPackratAction_stop_clears. assumption.
Qed.

Lemma file_events_ignored_while_action_runs_witness :
  let w := Scenario.world (Some "X") [("a", "Package: a")] Scenario.noPending in
  let s1 := onPackratAction w "/home/user/proj" "restore" true initialSession in
  onFileChanged w Scenario.lockfilePath s1 = s1 /\
  onFilesChanged w [Scenario.descPath "a"; Scenario.lockfilePath] s1 = s1 /\
  run [(w, FileChanged (Scenario.descPath "a"));
       (w, FilesChanged [Scenario.lockfilePath])] s1 = s1 /\
  s_runningPackratAction
    (onPackratAction w "/home/user/proj" "restore" false s1)
  = PACKRAT_ACTION_NONE /\
  onFileChanged w Scenario.lockfilePath initialSession <> initialSession.
Proof.
  intros w s1.
  destruct (file_events_ignored_while_action_runs
              w "/home/user/proj" "restore" initialSession eq_refl)
    as (_ & Hone & Hmany & Hrun & Hstop).
  split; [apply Hone|]. split; [apply Hmany|].
  split; [apply Hrun; repeat constructor|].
  split; [apply Hstop; reflexivity|].
  vm_compute. discriminate.
Defined.

(** ** Stop events *)

(** C10. A stop event for the current project does the same whatever action
    name it carries.  It always clears the recorded action.  What else it
    does depends only on the action recorded before: RESTORE resolves for the
    lockfile, SNAPSHOT resolves for the library, and for none, clean or
    unknown the cleared slot is the only change (no pending-actions query,
    no client event, no write to the persistent store). *)
Theorem stop_event_uses_recorded_action :
  forall (w : World) (project action action' : string) (s : Session),
    onPackratAction w project action false s
    = onPackratAction w project action' false s /\
    (realPathsEqual w project = true ->
     let s' := onPackratAction w project action false s in
     let cleared := set_runningPackratAction PACKRAT_ACTION_NONE s in
     s_runningPackratAction s' = PACKRAT_ACTION_NONE /\
     match s_runningPackratAction s with
     | PACKRAT_ACTION_RESTORE =>
         s' = resolveStateAfterAction w PACKRAT_ACTION_RESTORE
                HASH_TYPE_LOCKFILE cleared
     | PACKRAT_ACTION_SNAPSHOT =>
         s' = resolveStateAfterAction w PACKRAT_ACTION_SNAPSHOT
                HASH_TYPE_LIBRARY cleared
     | PACKRAT_ACTION_NONE | PACKRAT_ACTION_CLEAN | PACKRAT_ACTION_UNKNOWN =>
         s' = cleared /\
         clientEvents s' = clientEvents s /\
         rCalls s' = rCalls s /\
         projectPersistent s' = projectPersistent s
     end).
Proof.
  intros w project action action' s. split; [reflexivity|].
  intros Hproj s' cleared.
  split; [apply onPackratAction_stop_clears, Hproj|].
  subst s' cleared. unfold onPackratAction. rewrite Hproj. simpl.
  destruct (s_runningPackratAction s); repeat split.
Qed.

Lemma stop_event_uses_recorded_action_witness :
  let w := Scenario.world (Some "X") [("a", "Package: a")] Scenario.noPending in
  let s := set_runningPackratAction PACKRAT_ACTION_CLEAN initialSession in
  onPackratAction w "/home/user/proj" "snapshot" false s = initialSession.
Proof.
  intros w s.
  destruct (stop_event_uses_recorded_action
              w "/home/user/proj" "snapshot" "clean" s) as [_ H].
  destruct (H eq_refl) as (_ & Hs & _). exact Hs.
Defined.

(** ** Repeated checks *)

(** C5, as stated, fails.  Lockfile content "X", nothing stored: the first
    check enqueues one refresh but stores no OBSERVED hash, so the second
    check finds the same mismatch and enqueues a second refresh. *)
Lemma checkAndNotify_twice_reacts_twice :
  let w := Scenario.world (Some "X") [] Scenario.noPending in
  let s1 := checkAndNotify w HASH_TYPE_LOCKFILE initialSession in
  let s2 := checkAndNotify w HASH_TYPE_LOCKFILE s1 in
  computeLockfileHash w = Hash.crc32HexHash "X" /\
  clientEvents s1 = [kInstalledPackagesChanged] /\
  getHash w HASH_TYPE_LOCKFILE HASH_STATE_OBSERVED s1 = "" /\
  getHash w HASH_TYPE_LOCKFILE HASH_STATE_OBSERVED s1
    <> Hash.crc32HexHash "X" /\
  clientEvents s2 = [kInstalledPackagesChanged; kInstalledPackagesChanged] /\
  s2 <> s1.
Proof.
  vm_compute. repeat split; try discriminate.
Qed.

Lemma checkHashes_up_to_date (w : World) ty onMismatch (s : Session) :
  getHash w ty HASH_STATE_OBSERVED s = getHash w ty HASH_STATE_COMPUTED s ->
  checkHashes w ty HASH_STATE_OBSERVED onMismatch s = s.
Proof.
  intros Heq. unfold checkHashes.
  destruct (checkingHashes s) eqn:Hguard; [reflexivity|].
  rewrite !getHash_checking, Heq, String.eqb_refl.
  apply set_checkingHashes_restore, Hguard.
Qed.

Lemma getHash_persistent (w : World) ty st (s s' : Session) :
  projectPersistent s' = projectPersistent s ->
  getHash w ty st s' = getHash w ty st s.
Proof.
  intros H. unfold getHash, getProjectPersistent. rewrite H. reflexivity.
Qed.

Lemma annotatePendingActions_observed (w : World) ty (s : Session) :
  getHash w ty HASH_STATE_OBSERVED (snd (annotatePendingActions w s))
  = getHash w ty HASH_STATE_COMPUTED s.
Proof.
  rewrite (getHash_persistent w ty HASH_STATE_OBSERVED _ _
             (annotatePendingActions_persistent w s)).
  destruct ty.
  - rewrite updateHash_stores by discriminate. reflexivity.
  - rewrite getHash_stored by discriminate.
    rewrite updateHash_other by (vm_compute; discriminate).
    rewrite <- (getHash_stored w HASH_TYPE_LIBRARY HASH_STATE_OBSERVED)
      by discriminate.
    rewrite updateHash_stores by discriminate. reflexivity.
Qed.

(** C5, amended.  [checkAndNotify] stores nothing, so it is not made
    idempotent by its own effect: for LOCKFILE, every call (not re-entrant)
    made while the stored OBSERVED hash differs from the computed one
    enqueues exactly one refresh and changes nothing else, however often it
    is repeated.  For either entity the call is a no-op once the stored
    OBSERVED hash equals the computed hash, and [annotatePendingActions] is
    what stores it: after it, with the files unchanged, one or two calls of
    [checkAndNotify] leave the session as it is. *)
Theorem checkAndNotify_noop_once_observed :
  forall (w : World) (ty : PackratHashType) (s : Session),
    projectPersistent (checkAndNotify w ty s) = projectPersistent s /\
    (checkingHashes s = false ->
     getHash w HASH_TYPE_LOCKFILE HASH_STATE_OBSERVED s
       <> getHash w HASH_TYPE_LOCKFILE HASH_STATE_COMPUTED s ->
     checkAndNotify w HASH_TYPE_LOCKFILE s = emitPackagesChanged s /\
     checkAndNotify w HASH_TYPE_LOCKFILE (checkAndNotify w HASH_TYPE_LOCKFILE s)
       = emitPackagesChanged (emitPackagesChanged s)) /\
    (getHash w ty HASH_STATE_OBSERVED s = getHash w ty HASH_STATE_COMPUTED s ->
     checkAndNotify w ty s = s) /\
    let sa := snd (annotatePendingActions w s) in
    getHash w ty HASH_STATE_OBSERVED sa = getHash w ty HASH_STATE_COMPUTED sa /\
    checkAndNotify w ty sa = sa /\
    checkAndNotify w ty (checkAndNotify w ty sa) = sa.
Proof.
  intros w ty s.
  assert (forall s0, getHash w ty HASH_STATE_OBSERVED s0
                     = getHash w ty HASH_STATE_COMPUTED s0 ->
                     checkAndNotify w ty s0 = s0) as Hnoop.
  { intros s0 H0. destruct ty; apply checkHashes_up_to_date; exact H0. }
  assert (forall s0, checkingHashes s0 = false ->
                     getHash w HASH_TYPE_LOCKFILE HASH_STATE_OBSERVED s0
                     <> getHash w HASH_TYPE_LOCKFILE HASH_STATE_COMPUTED s0 ->
                     checkAndNotify w HASH_TYPE_LOCKFILE s0
                     = emitPackagesChanged s0) as Hstale.
  { intros s0 Hguard Hne. apply String.eqb_neq in Hne.
    unfold checkAndNotify, checkHashes, onLockfileUpdate. rewrite Hguard.
    rewrite !getHash_checking, Hne, emitPackagesChanged_checking.
    apply set_checkingHashes_restore. exact Hguard. }
  split.
  { destruct ty; simpl.
    - apply checkHashes_persistent. reflexivity.
    - apply checkHashes_persistent. intros. apply onLibraryUpdate_persistent. }
  split.
  { intros Hguard Hne. split; [apply Hstale; assumption|].
    rewrite (Hstale s Hguard Hne). apply Hstale; [exact Hguard|exact Hne]. }
  split; [apply Hnoop|].
  intros sa.
  assert (getHash w ty HASH_STATE_OBSERVED sa
          = getHash w ty HASH_STATE_COMPUTED sa) as Hsa.
  { subst sa. rewrite annotatePendingActions_observed.
    destruct ty; reflexivity. }
  split; [exact Hsa|].
  rewrite (Hnoop sa Hsa). split; [reflexivity|]. apply Hnoop, Hsa.
Qed.

Lemma checkAndNotify_noop_once_observed_witness :
  let w := Scenario.world (Some "X") [] Scenario.noPending in
  let w0 := Scenario.world None [] Scenario.noPending in
  checkAndNotify w HASH_TYPE_LOCKFILE initialSession
    = emitPackagesChanged initialSession /\
  checkAndNotify w0 HASH_TYPE_LOCKFILE initialSession = initialSession /\
  let sa := snd (annotatePendingActions w initialSession) in
  getHash w HASH_TYPE_LOCKFILE HASH_STATE_OBSERVED sa = Hash.crc32HexHash "X" /\
  checkAndNotify w HASH_TYPE_LOCKFILE sa = sa.
Proof.
  intros w w0.
  destruct (checkAndNotify_noop_once_observed w HASH_TYPE_LOCKFILE initialSession)
    as (_ & Hstale & _ & Hobs & Hsa & _).
  destruct (checkAndNotify_noop_once_observed w0 HASH_TYPE_LOCKFILE initialSession)
    as (_ & _ & Hnoop & _).
  split.
  - apply Hstale; [reflexivity|]. vm_compute. discriminate.
  - split; [apply Hnoop; reflexivity|].
    intros sa. split; [|exact Hsa]. subst sa. rewrite Hobs. reflexivity.
Defined.

(** ** Failures of the external tool *)

(** C4, as stated, fails.  The library holds one package, nothing is stored,
    a snapshot action is recorded as running and [.rs.pendingActions] raises
    an error: the stop event stores RESOLVED hashes for both entities. *)
Lemma pending_query_error_still_resolves :
  let w := Scenario.world (Some "X") [("a", "Package: a")]
             Scenario.failingPending in
  let s := set_runningPackratAction PACKRAT_ACTION_SNAPSHOT initialSession in
  let s' := onPackratAction w "/home/user/proj" "snapshot" false s in
  rs_pendingActions w (packratActionName PACKRAT_ACTION_SNAPSHOT) = None /\
  getHash w HASH_TYPE_LIBRARY HASH_STATE_RESOLVED s = "" /\
  getHash w HASH_TYPE_LOCKFILE HASH_STATE_RESOLVED s = "" /\
  getHash w HASH_TYPE_LIBRARY HASH_STATE_RESOLVED s' = "A4DCA127" /\
  getHash w HASH_TYPE_LOCKFILE HASH_STATE_RESOLVED s' = "B7B2364B" /\
  projectPersistent s' <> projectPersistent s.
Proof.
  vm_compute. repeat split; try discriminate.
Qed.

Lemma onProcessCompleted_failure (w : World) pid status (s : Session)
    (p : AutoSnapshot) :
  status <> 0 ->
  processes s !! pid = Some p -> isRunning_ p = true ->
  onProcessCompleted w pid status s
  = set_processes (<[pid := markCompleted p]> (processes s)) s.
Proof.
  intros Hst Hpid Hp. unfold onProcessCompleted, onCompleted.
  rewrite Hpid, Hp. apply Z.eqb_neq in Hst. rewrite Hst. reflexivity.
Qed.

(** C4, amended.  A snapshot subprocess that exits with a non-zero status
    changes nothing but its own running flag: the persistent store (RESOLVED
    and OBSERVED of both entities) is left as it was, and nothing is queried,
    enqueued or started.  An error of the pending-actions query during
    resolution is not kept apart from an empty answer: the resolution goes on
    and the stored RESOLVED hash then reads as the current computed hash for
    both LOCKFILE and LIBRARY. *)
Theorem tool_failures_and_resolved_state :
  forall (w : World) (s : Session),
    (forall (pid : nat) (status : Z) (p : AutoSnapshot),
        status <> 0 ->
        processes s !! pid = Some p -> isRunning_ p = true ->
        let s' := onProcessCompleted w pid status s in
        projectPersistent s' = projectPersistent s /\
        s' = set_processes (<[pid := markCompleted p]> (processes s)) s) /\
    (forall (action : PackratActionType) (hashType : PackratHashType),
        rs_pendingActions w (packratActionName action) = None ->
        let s' := resolveStateAfterAction w action hashType s in
        fst (fst (getPendingActions w action None s)) = false /\
        getHash w HASH_TYPE_LOCKFILE HASH_STATE_RESOLVED s'
          = computeLockfileHash w /\
        getHash w HASH_TYPE_LIBRARY HASH_STATE_RESOLVED s'
          = computeLibraryHash w).
Proof.
  intros w s. split.
  - intros pid status p Hst Hpid Hp s'. subst s'.
    rewrite (onProcessCompleted_failure w pid status s p Hst Hpid Hp).
    split; reflexivity.
  - intros action hashType Herr s'.
    pose proof (resolveStateAfterAction_resolved w action hashType s) as H.
    rewrite getPendingActions_null. simpl fst.
    assert (pendingActionsRemain w action = false) as Hnone
      by (unfold pendingActionsRemain; rewrite Herr; reflexivity).
    rewrite Hnone in H. split; [exact Hnone|]. exact H.
Qed.

Lemma tool_failures_and_resolved_state_witness :
  let w := Scenario.world (Some "X") [("a", "Package: a")]
             Scenario.failingPending in
  let s := run [(w, RequestSnapshot "A4DCA127")] initialSession in
  projectPersistent (onProcessCompleted w 0 1 s) = projectPersistent s /\
  getHash w HASH_TYPE_LIBRARY HASH_STATE_RESOLVED
    (resolveStateAfterAction w PACKRAT_ACTION_SNAPSHOT HASH_TYPE_LIBRARY s)
  = "A4DCA127".
Proof.
  intros w s.
  destruct (tool_failures_and_resolved_state w s) as [Hexit Hquery].
  split.
  - apply (Hexit 0%nat 1 (startedFor w "A4DCA127"));
      [discriminate | reflexivity | reflexivity].
  - destruct (Hquery PACKRAT_ACTION_SNAPSHOT HASH_TYPE_LIBRARY eq_refl)
      as (_ & _ & Hlib).
    rewrite Hlib. reflexivity.
Defined.

(** ** Classification of changed paths *)

(** C8, as stated, fails.  A DESCRIPTION file two levels below the reserved
    directory [manipulate] is not ignored: it is classified as a library
    change and starts an auto-snapshot. *)
Lemma nested_reserved_path_not_ignored :
  let w := Scenario.world (Some "X") [("a", "Package: a")] Scenario.noPending in
  let p := Scenario.libraryPath ++ ["manipulate"; "help"; "DESCRIPTION"] in
  underReservedDirectory w p = true /\
  classifyPath w p = CLASS_LIBRARY /\
  onFileChanged w p initialSession
    = checkAndNotify w HASH_TYPE_LIBRARY initialSession /\
  targetHash_ <$> processes (onFileChanged w p initialSession) = ["A4DCA127"].
Proof.
  vm_compute. repeat split.
Qed.

Lemma isReservedName_or (p : FilePath) :
  String.eqb (filename p) "manipulate"
  || String.eqb (filename p) "rstudio"
  || String.eqb (filename (parent p)) "manipulate"
  || String.eqb (filename (parent p)) "rstudio"
  = isReservedName (filename p) || isReservedName (filename (parent p)).
Proof. unfold isReservedName. rewrite <- !orb_assoc. reflexivity. Qed.

Lemma onFileChanged_classify (w : World) (p : FilePath) (s : Session) :
  onFileChanged w p s =
    if negb (bool_decide (s_runningPackratAction s = PACKRAT_ACTION_NONE))
    then s
    else match classifyPath w p with
         | CLASS_LOCKFILE => checkAndNotify w HASH_TYPE_LOCKFILE s
         | CLASS_LIBRARY => checkAndNotify w HASH_TYPE_LIBRARY s
         | CLASS_IGNORED => s
         end.
Proof.
  unfold onFileChanged, classifyPath. rewrite isReservedName_or.
  destruct (negb (bool_decide _)); [reflexivity|].
  destruct (String.eqb (filename p) kPackratLockfile); [reflexivity|].
  destruct (_ && _); [|reflexivity].
  destruct (_ || _); reflexivity.
Qed.

(** C8, amended.  [onFileChanged], when no action is running, does what the
    class of the path says.  A path is a LOCKFILE change iff its filename is
    exactly "packrat.lock", wherever it lies.  It is a LIBRARY change iff it
    is not so named, lies within the library root, is a directory or is named
    exactly "DESCRIPTION", and neither its own name nor the name of its
    immediate parent is "manipulate" or "rstudio".  Every other path is
    ignored; a reserved name further up the path does not matter. *)
Theorem file_change_classification :
  forall (w : World) (p : FilePath),
    (forall s : Session,
        onFileChanged w p s =
          if negb (bool_decide (s_runningPackratAction s = PACKRAT_ACTION_NONE))
          then s
          else match classifyPath w p with
               | CLASS_LOCKFILE => checkAndNotify w HASH_TYPE_LOCKFILE s
               | CLASS_LIBRARY => checkAndNotify w HASH_TYPE_LIBRARY s
               | CLASS_IGNORED => s
               end) /\
    (classifyPath w p = CLASS_LOCKFILE <-> filename p = kPackratLockfile) /\
    (classifyPath w p = CLASS_LIBRARY <->
       filename p <> kPackratLockfile /\
       isWithin p (complete (projectDirectory w) kPackratLibPath) = true /\
       (fileIsDirectory w p = true \/ filename p = "DESCRIPTION") /\
       isReservedName (filename p) = false /\
       isReservedName (filename (parent p)) = false).
Proof.
  intros w p. split; [intros s; apply onFileChanged_classify|].
  unfold classifyPath.
  destruct (String.eqb (filename p) kPackratLockfile) eqn:Elock.
  - apply String.eqb_eq in Elock. split; [tauto|].
    split; [discriminate|]. intros (Hne & _). contradiction.
  - apply String.eqb_neq in Elock.
    split; [split; [|intros ?; contradiction]|].
    { destruct (_ && _); [destruct (_ || _)|]; discriminate. }
    destruct (isWithin p _) eqn:Ewithin; simpl.
    + destruct (fileIsDirectory w p) eqn:Edir; simpl.
      * destruct (isReservedName (filename p)) eqn:E1; simpl.
        { split; [discriminate|]. intros (_ & _ & _ & H & _). discriminate. }
        destruct (isReservedName (filename (parent p))) eqn:E2; simpl.
        { split; [discriminate|]. intros (_ & _ & _ & _ & H). discriminate. }
        split; [|reflexivity]. intros _. repeat split; auto.
      * destruct (String.eqb (filename p) "DESCRIPTION") eqn:Edesc.
        -- apply String.eqb_eq in Edesc.
           destruct (isReservedName (filename p)) eqn:E1; simpl.
           { split; [discriminate|]. intros (_ & _ & _ & H & _). discriminate. }
           destruct (isReservedName (filename (parent p))) eqn:E2; simpl.
           { split; [discriminate|]. intros (_ & _ & _ & _ & H). discriminate. }
           split; [|reflexivity]. intros _. repeat split; auto.
        -- apply String.eqb_neq in Edesc.
           split; [discriminate|].
           intros (_ & _ & [H|H] & _); [discriminate|contradiction].
    + split; [discriminate|]. intros (_ & H & _). discriminate.
Qed.

Lemma file_change_classification_witness :
  let w := Scenario.world (Some "X") [("a", "Package: a")] Scenario.noPending in
  classifyPath w Scenario.lockfilePath = CLASS_LOCKFILE /\
  classifyPath w (Scenario.descPath "a") = CLASS_LIBRARY /\
  filename (Scenario.libraryPath ++ ["manipulate"; "DESCRIPTION"])
    <> kPackratLockfile.
Proof.
  intros w.
  destruct (file_change_classification w Scenario.lockfilePath)
    as (_ & Hlock & _).
  destruct (file_change_classification w (Scenario.descPath "a"))
    as (_ & _ & Hlib).
  destruct (file_change_classification w
              (Scenario.libraryPath ++ ["manipulate"; "DESCRIPTION"]))
    as (_ & Hlock' & _).
  split; [apply Hlock; reflexivity|].
  split.
  - apply Hlib. repeat split; try reflexivity.
    + vm_compute. discriminate.
    + right. reflexivity.
  - intros Hname. apply Hlock' in Hname. vm_compute in Hname. discriminate.
Defined.

(** * Further properties of the module *)

(** ** Action names *)

(** X1. The three action names and their action types are in one-to-one
    correspondence: naming a snapshot, restore or clean action and parsing
    the name gives the action back, and parsing any string that is
    recognised and naming the result gives the string back.  The two other
    types have the empty name, which parses as unknown, never as none. *)
Theorem packratAction_round_trip :
  (forall a : PackratActionType,
      packratAction (packratActionName a) =
        match a with
        | PACKRAT_ACTION_NONE | PACKRAT_ACTION_UNKNOWN => PACKRAT_ACTION_UNKNOWN
        | _ => a
        end) /\
  (forall str : string,
      packratAction str <> PACKRAT_ACTION_UNKNOWN ->
      packratActionName (packratAction str) = str) /\
  (forall str : string,
      packratAction str = PACKRAT_ACTION_UNKNOWN ->
      packratActionName (packratAction str) = "").
Proof.
  split; [intros []; reflexivity|]. split.
  - intros str. unfold packratAction.
    destruct (String.eqb str kPackratActionSnapshot) eqn:E1;
      [apply String.eqb_eq in E1; subst; reflexivity|].
    destruct (String.eqb str kPackratActionRestore) eqn:E2;
      [apply String.eqb_eq in E2; subst; reflexivity|].
    destruct (String.eqb str kPackratActionClean) eqn:E3;
      [apply String.eqb_eq in E3; subst; reflexivity|].
    intros H. contradiction H. reflexivity.
  - intros str ->. reflexivity.
Qed.

Lemma packratAction_round_trip_witness :
  packratActionName (packratAction "restore") = "restore" /\
  packratActionName (packratAction "upgrade") = "".
Proof.
  destruct packratAction_round_trip as (_ & Hknown & Hunknown).
  split.
  - apply Hknown. vm_compute. discriminate.
  - apply Hunknown. reflexivity.
Defined.

(** ** The stored hashes as a store *)

Lemma keyOfHashType_stored_inj ty1 st1 ty2 st2 :
  st1 <> HASH_STATE_COMPUTED -> st2 <> HASH_STATE_COMPUTED ->
  keyOfHashType ty1 st1 = keyOfHashType ty2 st2 -> ty1 = ty2 /\ st1 = st2.
Proof.
  destruct ty1, st1, ty2, st2; intros H1 H2 E; try congruence;
    try (split; reflexivity); vm_compute in E; discriminate E.
Qed.

(** X2. [updateHash] on a stored view is a write followed by a faithful
    read: afterwards [getHash] returns the computed hash for that entity and
    view, and returns what it returned before for each of the three other
    stored entries.  The four entries never overwrite one another. *)
Theorem updateHash_round_trip :
  forall (w : World) (ty ty' : PackratHashType) (st st' : PackratHashState)
         (s : Session),
    st <> HASH_STATE_COMPUTED ->
    st' <> HASH_STATE_COMPUTED ->
    let s' := snd (updateHash w ty st s) in
    getHash w ty st s' = getHash w ty HASH_STATE_COMPUTED s /\
    ((ty', st') <> (ty, st) -> getHash w ty' st' s' = getHash w ty' st' s).
Proof.
  intros w ty ty' st st' s Hst Hst' s'. split.
  - apply updateHash_stores. exact Hst.
  - intros Hne. subst s'. rewrite !(getHash_stored w ty' st') by exact Hst'.
    rewrite updateHash_other; [reflexivity|].
    intros Hkey. apply keyOfHashType_stored_inj in Hkey; try assumption.
    destruct Hkey as [-> ->]. contradiction Hne. reflexivity.
Qed.

Lemma updateHash_round_trip_witness :
  let w := Scenario.world (Some "X") [("a", "Package: a")] Scenario.noPending in
  let s' := snd (updateHash w HASH_TYPE_LOCKFILE HASH_STATE_OBSERVED
                   initialSession) in
  getHash w HASH_TYPE_LOCKFILE HASH_STATE_OBSERVED s' = "B7B2364B" /\
  getHash w HASH_TYPE_LOCKFILE HASH_STATE_RESOLVED s' = "".
Proof.
  intros w s'.
  destruct (updateHash_round_trip w HASH_TYPE_LOCKFILE HASH_TYPE_LOCKFILE
              HASH_STATE_OBSERVED HASH_STATE_RESOLVED initialSession
              ltac:(discriminate) ltac:(discriminate)) as [Hsame Hother].
  split.
  - subst s'. rewrite Hsame. reflexivity.
  - subst s'. rewrite Hother by discriminate. reflexivity.
Defined.

Lemma updateHash_unchanged (w : World) ty st (s : Session) :
  getHash w ty st s = getHash w ty HASH_STATE_COMPUTED s ->
  snd (updateHash w ty st s) = s.
Proof.
  intros Heq. unfold updateHash. rewrite Heq, String.eqb_refl. reflexivity.
Qed.

(** X3. [updateHash] writes only when there is something to change: if the
    stored hash already equals the computed one the session is returned as
    it is, and a second [updateHash] right after a first changes nothing. *)
Theorem updateHash_idempotent :
  forall (w : World) (ty : PackratHashType) (st : PackratHashState)
         (s : Session),
    (getHash w ty st s = getHash w ty HASH_STATE_COMPUTED s ->
     snd (updateHash w ty st s) = s) /\
    snd (updateHash w ty st (snd (updateHash w ty st s)))
    = snd (updateHash w ty st s).
Proof.
  intros w ty st s. split; [apply updateHash_unchanged|].
  apply updateHash_unchanged.
  destruct st; try reflexivity;
    rewrite updateHash_stores by discriminate; reflexivity.
Qed.

Lemma updateHash_idempotent_witness :
  let w := Scenario.world None [] Scenario.noPending in
  snd (updateHash w HASH_TYPE_LOCKFILE HASH_STATE_RESOLVED initialSession)
  = initialSession.
Proof.
  intros w.
  destruct (updateHash_idempotent w HASH_TYPE_LOCKFILE HASH_STATE_RESOLVED
              initialSession) as [Hsame _].
  apply Hsame. reflexivity.
Defined.

(** ** The library hash *)

Lemma append_empty_r (a : string) : String.append a "" = a.
Proof.
  induction a as [|c a IH]; [reflexivity|].
  change (String c (String.append a "") = String c a). rewrite IH. reflexivity.
Qed.

Lemma append_assoc (a b c : string) :
  String.append (String.append a b) c = String.append a (String.append b c).
Proof.
  induction a as [|x a IH]; [reflexivity|].
  change (String x (String.append (String.append a b) c)
          = String x (String.append a (String.append b c))).
  rewrite IH. reflexivity.
Qed.

Lemma foldr_append_app (l1 l2 : list string) :
  fold_right String.append "" (l1 ++ l2)
  = String.append (fold_right String.append "" l1)
      (fold_right String.append "" l2).
Proof.
  induction l1 as [|x l1 IH]; [reflexivity|].
  cbn [app fold_right]. rewrite IH, append_assoc. reflexivity.
Qed.

Lemma addDescContent_eq (w : World) (level : Z) (path : FilePath)
    (acc : string) :
  addDescContent w level path acc =
    (true,
     String.append acc
       (fold_right String.append ""
          (if String.eqb (filename path) "DESCRIPTION"
           then match readStringFromFile w path with
                | Some content => [content]
                | None => []
                end
           else []))).
Proof.
  unfold addDescContent.
  destruct (String.eqb (filename path) "DESCRIPTION").
  - destruct (readStringFromFile w path) as [content|]; cbn [fold_right];
      rewrite ?append_empty_r; reflexivity.
  - cbn [fold_right]. rewrite append_empty_r. reflexivity.
Qed.

Lemma iterateChildren_addDescContent (w : World)
    (children : list (Z * FilePath)) (acc : string) :
  iterateChildren (addDescContent w) children acc =
    String.append acc
      (fold_right String.append ""
         (List.flat_map
            (fun c : Z * FilePath =>
               if String.eqb (filename (snd c)) "DESCRIPTION"
               then match readStringFromFile w (snd c) with
                    | Some content => [content]
                    | None => []
                    end
               else [])
            children)).
Proof.
  revert acc. induction children as [|[level path] rest IH]; intros acc.
  - simpl. rewrite append_empty_r. reflexivity.
  - cbn [iterateChildren flat_map snd].
    rewrite addDescContent_eq. cbn [fst snd].
    rewrite IH, append_assoc, foldr_append_app. reflexivity.
Qed.

(** X4. The library hash is a function of the DESCRIPTION files alone: it is
    the checksum of the contents of the readable files named exactly
    "DESCRIPTION", concatenated in traversal order.  Files of any other name
    and DESCRIPTION files that cannot be read contribute nothing, and when
    the concatenation is empty (no such file, or only empty ones) the hash is
    the empty string rather than the checksum of nothing. *)
Theorem computeLibraryHash_description_files :
  forall w : World,
    let content := fold_right String.append "" (descContents w) in
    computeLibraryHash w =
      if String.eqb content "" then "" else Hash.crc32HexHash content.
Proof.
  intros w content. unfold computeLibraryHash.
  rewrite iterateChildren_addDescContent. reflexivity.
Qed.

(** ** The lockfile hash *)

Lemma computeLockfileHash_missing (w : World) :
  fileExists w (complete (projectDirectory w) kPackratLockfilePath) = false
  \/ readStringFromFile w (complete (projectDirectory w) kPackratLockfilePath)
     = None ->
  computeLockfileHash w = "".
Proof.
  intros [H|H]; unfold computeLockfileHash.
  - rewrite H. reflexivity.
  - rewrite H. destruct (negb _); reflexivity.
Qed.

Lemma isHashUnresolved_empty_observed (w : World) ty (s : Session) :
  getHash w ty HASH_STATE_OBSERVED s = "" -> isHashUnresolved w ty s = false.
Proof. intros H. unfold isHashUnresolved. rewrite H. reflexivity. Qed.

(** X5. A lockfile that is missing, or that exists but cannot be read, hashes
    to the empty string; once [annotatePendingActions] has observed that, the
    lockfile is not unresolved whatever RESOLVED hash is stored, so a missing
    lockfile never counts as an outstanding restore. *)
Theorem missing_lockfile_never_unresolved :
  forall (w w' : World) (s : Session),
    fileExists w (complete (projectDirectory w) kPackratLockfilePath) = false
    \/ readStringFromFile w (complete (projectDirectory w) kPackratLockfilePath)
       = None ->
    computeLockfileHash w = "" /\
    isHashUnresolved w' HASH_TYPE_LOCKFILE (snd (annotatePendingActions w s))
    = false.
Proof.
  intros w w' s Hmissing.
  pose proof (computeLockfileHash_missing w Hmissing) as Hhash.
  split; [exact Hhash|].
  apply isHashUnresolved_empty_observed.
  change (getHash w HASH_TYPE_LOCKFILE HASH_STATE_OBSERVED
            (snd (annotatePendingActions w s)) = "").
  rewrite annotatePendingActions_observed. exact Hhash.
Qed.

Lemma missing_lockfile_never_unresolved_witness :
  let w := Scenario.world None [("a", "Package: a")] Scenario.noPending in
  let s :=
    set_projectPersistent
      (<["packratLockfileObserved" := JsonString "B7B2364B"]>
         (<["packratLockfileResolved" := JsonString "00000000"]> ∅))
      initialSession in
  isHashUnresolved w HASH_TYPE_LOCKFILE s = true /\
  isHashUnresolved w HASH_TYPE_LOCKFILE (snd (annotatePendingActions w s))
  = false.
Proof.
  intros w s. split; [reflexivity|].
  destruct (missing_lockfile_never_unresolved w w s) as [_ H];
    [left; reflexivity | exact H].
Defined.

(** ** What a resolution does *)

Lemma afterPendingQuery_fields (w : World) action hashType (s : Session) :
  let s2 := afterPendingQuery w action hashType s in
  clientEvents s2
  = clientEvents s
    ++ (if String.eqb (getHash w hashType HASH_STATE_OBSERVED s)
                      (getHash w hashType HASH_STATE_COMPUTED s)
        then [] else [kInstalledPackagesChanged]) /\
  rCalls s2 = rCalls s ++ [RCallPendingActions (packratActionName action)] /\
  s_runningPackratAction s2 = s_runningPackratAction s /\
  checkingHashes s2 = checkingHashes s.
Proof.
  unfold afterPendingQuery.
  destruct (String.eqb _ _); simpl; rewrite ?app_nil_r; repeat split.
Qed.

(** X6. Whatever the outcome, [resolveStateAfterAction] enqueues at most one
    refresh, and exactly when the stored OBSERVED hash of the entity it was
    called for differs from the computed one; it asks for the pending
    actions of the completed action exactly once; and it leaves the scheduler
    (subprocess table, current run, pending counter), the recorded action and
    the recursion guard alone. *)
Theorem resolveStateAfterAction_effects :
  forall (w : World) (action : PackratActionType) (hashType : PackratHashType)
         (s : Session),
    let s' := resolveStateAfterAction w action hashType s in
    clientEvents s'
    = clientEvents s
      ++ (if String.eqb (getHash w hashType HASH_STATE_OBSERVED s)
                        (getHash w hashType HASH_STATE_COMPUTED s)
          then [] else [kInstalledPackagesChanged]) /\
    rCalls s' = rCalls s ++ [RCallPendingActions (packratActionName action)] /\
    processes s' = processes s /\
    pAutoSnapshot s' = pAutoSnapshot s /\
    pendingSnapshots s' = pendingSnapshots s /\
    s_runningPackratAction s' = s_runningPackratAction s /\
    checkingHashes s' = checkingHashes s.
Proof.
  intros w action hashType s s'.
  destruct (resolveStateAfterAction_sameSched w action hashType s)
    as (Hp & Hptr & Hcount).
  destruct (afterPendingQuery_fields w action hashType s)
    as (Hev & Hcalls & Hrun & Hguard).
  assert (clientEvents s' = clientEvents (afterPendingQuery w action hashType s)
          /\ rCalls s' = rCalls (afterPendingQuery w action hashType s)
          /\ s_runningPackratAction s'
             = s_runningPackratAction (afterPendingQuery w action hashType s)
          /\ checkingHashes s'
             = checkingHashes (afterPendingQuery w action hashType s))
    as (E1 & E2 & E3 & E4).
  { subst s'. rewrite resolveStateAfterAction_unfold. cbv zeta.
    destruct (pendingActionsRemain w action); [repeat split|].
    set (s2 := afterPendingQuery w action hashType s).
    destruct (updateHash_frame w HASH_TYPE_LIBRARY HASH_STATE_RESOLVED s2)
      as (A1 & _ & _ & _ & A5 & A6 & A7).
    destruct (updateHash_frame w HASH_TYPE_LOCKFILE HASH_STATE_RESOLVED
                (snd (updateHash w HASH_TYPE_LIBRARY HASH_STATE_RESOLVED s2)))
      as (B1 & _ & _ & _ & B5 & B6 & B7).
    cbv zeta in *. repeat split; congruence. }
  rewrite E1, E2, E3, E4. repeat split; assumption.
Qed.

(** ** The status annotation *)

Lemma getPendingActions_reported (w : World) action (s : Session) :
  pointee (snd (fst (getPendingActions w action (Some JsonNull) s)))
  = reportedActions w action.
Proof.
  unfold getPendingActions, reportedActions.
  destruct (rs_pendingActions w (packratActionName action)) as [[items|len]|];
    [destruct items as [|x items]| |]; simpl; try reflexivity.
  destruct (Nat.eqb len 0); reflexivity.
Qed.

Lemma updateHash_result (w : World) ty st (s : Session) :
  fst (updateHash w ty st s) = getHash w ty HASH_STATE_COMPUTED s.
Proof. unfold updateHash. destruct (negb _); reflexivity. Qed.

Lemma getHash_resolved_after_observed (w : World) ty (s : Session) :
  getHash w ty HASH_STATE_RESOLVED
    (snd (updateHash w HASH_TYPE_LOCKFILE HASH_STATE_OBSERVED
            (snd (updateHash w HASH_TYPE_LIBRARY HASH_STATE_OBSERVED s))))
  = getHash w ty HASH_STATE_RESOLVED s.
Proof.
  rewrite !(getHash_stored w ty HASH_STATE_RESOLVED) by discriminate.
  rewrite !updateHash_other
    by (apply not_eq_sym, observed_key_not_resolved).
  reflexivity.
Qed.

(** What [annotatePendingActions] returns and which R calls it makes, in
    terms of the two dirty flags. *)
Lemma annotatePendingActions_spec (w : World) (s : Session) :
  let libraryDirty :=
    negb (String.eqb (computeLibraryHash w)
            (getHash w HASH_TYPE_LIBRARY HASH_STATE_RESOLVED s)) in
  let lockfileDirty :=
    negb (String.eqb (computeLockfileHash w)
            (getHash w HASH_TYPE_LOCKFILE HASH_STATE_RESOLVED s)) in
  let r := annotatePendingActions w s in
  snapshot_actions (fst r)
  = (if libraryDirty then reportedActions w PACKRAT_ACTION_SNAPSHOT
     else JsonNull) /\
  restore_actions (fst r)
  = (if lockfileDirty then reportedActions w PACKRAT_ACTION_RESTORE
     else JsonNull) /\
  clean_actions (fst r) = reportedActions w PACKRAT_ACTION_CLEAN /\
  rCalls (snd r)
  = rCalls s
    ++ (if libraryDirty then [RCallPendingActions kPackratActionSnapshot]
        else [])
    ++ (if lockfileDirty then [RCallPendingActions kPackratActionRestore]
        else [])
    ++ [RCallPendingActions kPackratActionClean] /\
  clientEvents (snd r) = clientEvents s.
Proof.
  intros libraryDirty lockfileDirty r. subst r.
  unfold annotatePendingActions. cbv zeta.
  rewrite !updateHash_result.
  rewrite !getHash_resolved_after_observed.
  change (getHash w HASH_TYPE_LIBRARY HASH_STATE_COMPUTED s)
    with (computeLibraryHash w).
  change (getHash w HASH_TYPE_LOCKFILE HASH_STATE_COMPUTED
            (snd (updateHash w HASH_TYPE_LIBRARY HASH_STATE_OBSERVED s)))
    with (computeLockfileHash w).
  fold libraryDirty lockfileDirty.
  set (s2 := snd (updateHash w HASH_TYPE_LOCKFILE HASH_STATE_OBSERVED
                    (snd (updateHash w HASH_TYPE_LIBRARY HASH_STATE_OBSERVED s)))).
  assert (rCalls s2 = rCalls s /\ clientEvents s2 = clientEvents s)
    as [Hcalls Hevents].
  { subst s2.
    destruct (updateHash_frame w HASH_TYPE_LIBRARY HASH_STATE_OBSERVED s)
      as (_ & _ & _ & _ & A5 & A6 & _).
    destruct (updateHash_frame w HASH_TYPE_LOCKFILE HASH_STATE_OBSERVED
                (snd (updateHash w HASH_TYPE_LIBRARY HASH_STATE_OBSERVED s)))
      as (_ & _ & _ & _ & B5 & B6 & _).
    cbv zeta in *. split; congruence. }
  cbn [fst snd restore_actions snapshot_actions clean_actions].
  rewrite getPendingActions_reported, getPendingActions_session.
  destruct libraryDirty, lockfileDirty;
    rewrite ?getPendingActions_reported, ?getPendingActions_session;
    cbn [fst snd pointee rCalls clientEvents set_rCalls packratActionName];
    rewrite Hcalls, Hevents, <- ?app_assoc; repeat split.
Qed.

Lemma PendingActionsJson_eq (a b : PendingActionsJson) :
  restore_actions a = restore_actions b ->
  snapshot_actions a = snapshot_actions b ->
  clean_actions a = clean_actions b ->
  a = b.
Proof. destruct a, b; simpl; intros -> -> ->; reflexivity. Qed.

(** X7. The status [annotatePendingActions] attaches: the snapshot list is
    asked for only when the computed library hash differs from the stored
    RESOLVED one, the restore list only when the computed lockfile hash
    differs from its RESOLVED one, and the clean list always, in that order
    and with no other R call and no client event.  Each list is the
    (non-empty) answer of the tool and stays null when a list is not asked
    for, when the answer is empty, and when the call fails. *)
Theorem annotatePendingActions_report :
  forall (w : World) (s : Session),
    let libraryDirty :=
      negb (String.eqb (computeLibraryHash w)
              (getHash w HASH_TYPE_LIBRARY HASH_STATE_RESOLVED s)) in
    let lockfileDirty :=
      negb (String.eqb (computeLockfileHash w)
              (getHash w HASH_TYPE_LOCKFILE HASH_STATE_RESOLVED s)) in
    let r := annotatePendingActions w s in
    (snapshot_actions (fst r)
     = (if libraryDirty then reportedActions w PACKRAT_ACTION_SNAPSHOT
        else JsonNull) /\
     restore_actions (fst r)
     = (if lockfileDirty then reportedActions w PACKRAT_ACTION_RESTORE
        else JsonNull) /\
     clean_actions (fst r) = reportedActions w PACKRAT_ACTION_CLEAN /\
     rCalls (snd r)
     = rCalls s
       ++ (if libraryDirty then [RCallPendingActions kPackratActionSnapshot]
           else [])
       ++ (if lockfileDirty then [RCallPendingActions kPackratActionRestore]
           else [])
       ++ [RCallPendingActions kPackratActionClean] /\
     clientEvents (snd r) = clientEvents s) /\
    (forall action : PackratActionType,
        rs_pendingActions w (packratActionName action) = None
        \/ rs_pendingActions w (packratActionName action) = Some (SexpList []) ->
        reportedActions w action = JsonNull).
Proof.
  intros w s libraryDirty lockfileDirty r.
  split; [apply annotatePendingActions_spec|].
  intros action [H|H]; unfold reportedActions; rewrite H; reflexivity.
Qed.

Lemma annotatePendingActions_report_witness :
  let w := Scenario.world (Some "X") [("a", "Package: a")]
             Scenario.failingPending in
  fst (annotatePendingActions w initialSession)
  = {| restore_actions := JsonNull;
       snapshot_actions := JsonNull;
       clean_actions := JsonNull |} /\
  rCalls (snd (annotatePendingActions w initialSession))
  = [RCallPendingActions "snapshot"; RCallPendingActions "restore";
     RCallPendingActions "clean"].
Proof.
  intros w.
  destruct (annotatePendingActions_report w initialSession)
    as ((Hsnap & Hrest & Hclean & Hcalls & _) & Hnull).
  split; [|rewrite Hcalls; vm_compute; reflexivity].
  apply PendingActionsJson_eq;
    [rewrite Hrest, (Hnull PACKRAT_ACTION_RESTORE (or_introl eq_refl))
    |rewrite Hsnap, (Hnull PACKRAT_ACTION_SNAPSHOT (or_introl eq_refl))
    |rewrite Hclean, (Hnull PACKRAT_ACTION_CLEAN (or_introl eq_refl))];
    vm_compute; reflexivity.
Defined.

Lemma annotatePendingActions_resolved (w : World) ty (s : Session) :
  getHash w ty HASH_STATE_RESOLVED (snd (annotatePendingActions w s))
  = getHash w ty HASH_STATE_RESOLVED s.
Proof.
  rewrite !(getHash_stored w ty HASH_STATE_RESOLVED) by discriminate.
  rewrite annotatePendingActions_lookup
    by (apply not_eq_sym, observed_key_not_resolved).
  reflexivity.
Qed.

(** X8. Asking for the status twice in an unchanged world gives the same
    answer twice, and the second call writes nothing: the persistent store
    after it is the store after the first. *)
Theorem annotatePendingActions_idempotent :
  forall (w : World) (s : Session),
    let r1 := annotatePendingActions w s in
    let r2 := annotatePendingActions w (snd r1) in
    fst r2 = fst r1 /\
    projectPersistent (snd r2) = projectPersistent (snd r1).
Proof.
  intros w s r1 r2. split.
  - destruct (annotatePendingActions_spec w s) as (A1 & A2 & A3 & _).
    destruct (annotatePendingActions_spec w (snd r1)) as (B1 & B2 & B3 & _).
    cbv zeta in *. fold r1 in A1, A2, A3, B1, B2, B3. fold r2 in B1, B2, B3.
    subst r1. rewrite !annotatePendingActions_resolved in B1, B2.
    apply PendingActionsJson_eq; congruence.
  - subst r2. rewrite annotatePendingActions_persistent.
    rewrite (updateHash_unchanged w HASH_TYPE_LIBRARY HASH_STATE_OBSERVED)
      by (subst r1; rewrite annotatePendingActions_observed; reflexivity).
    rewrite (updateHash_unchanged w HASH_TYPE_LOCKFILE HASH_STATE_OBSERVED)
      by (subst r1; rewrite annotatePendingActions_observed; reflexivity).
    reflexivity.
Qed.

Lemma isHashUnresolved_equal (w : World) ty (s : Session) :
  getHash w ty HASH_STATE_OBSERVED s = getHash w ty HASH_STATE_RESOLVED s ->
  isHashUnresolved w ty s = false.
Proof.
  intros H. unfold isHashUnresolved. rewrite H, String.eqb_refl.
  destruct (_ || _); reflexivity.
Qed.

(** X9. After a resolution that found nothing pending, a status query in the
    unchanged world sees both entities as clean: it asks the tool for the
    clean list only, reports null snapshot and restore lists, and leaves
    neither entity unresolved. *)
Theorem resolved_state_is_clean :
  forall (w : World) (action : PackratActionType) (hashType : PackratHashType)
         (s : Session),
    fst (fst (getPendingActions w action None s)) = false ->
    let s1 := resolveStateAfterAction w action hashType s in
    let r := annotatePendingActions w s1 in
    snapshot_actions (fst r) = JsonNull /\
    restore_actions (fst r) = JsonNull /\
    rCalls (snd r) = rCalls s1 ++ [RCallPendingActions kPackratActionClean] /\
    isHashUnresolved w HASH_TYPE_LOCKFILE (snd r) = false /\
    isHashUnresolved w HASH_TYPE_LIBRARY (snd r) = false.
Proof.
  intros w action hashType s Hnone s1 r.
  rewrite getPendingActions_null in Hnone. simpl in Hnone.
  pose proof (resolveStateAfterAction_resolved w action hashType s) as Hres.
  cbv zeta in Hres. rewrite Hnone in Hres. fold s1 in Hres.
  destruct Hres as [Hlock Hlib].
  destruct (annotatePendingActions_spec w s1) as (A1 & A2 & _ & A4 & _).
  cbv zeta in A1, A2, A4. fold r in A1, A2, A4.
  rewrite Hlib, String.eqb_refl in A1, A4.
  rewrite Hlock, String.eqb_refl in A2, A4.
  split; [exact A1|]. split; [exact A2|]. split; [exact A4|].
  split; apply isHashUnresolved_equal; subst r;
    rewrite annotatePendingActions_observed, annotatePendingActions_resolved;
    symmetry; assumption.
Qed.

Lemma resolved_state_is_clean_witness :
  let w := Scenario.world (Some "X") [("a", "Package: a")] Scenario.noPending in
  let s1 := resolveStateAfterAction w PACKRAT_ACTION_SNAPSHOT HASH_TYPE_LIBRARY
              initialSession in
  rCalls (snd (annotatePendingActions w s1))
  = [RCallPendingActions "snapshot"; RCallPendingActions "clean"].
Proof.
  intros w s1.
  destruct (resolved_state_is_clean w PACKRAT_ACTION_SNAPSHOT HASH_TYPE_LIBRARY
              initialSession eq_refl) as (_ & _ & Hcalls & _).
  fold s1 in Hcalls. rewrite Hcalls. vm_compute. reflexivity.
Defined.

(** ** The recursion guard *)












(** ** What the module writes to the persistent store *)


(** ** What the module writes to the persistent store *)

Lemma storeGrows_refl (s : Session) : storeGrows s s.
Proof. intros key v H. left. exact H. Qed.

Lemma storeGrows_same (s s' : Session) :
  projectPersistent s' = projectPersistent s -> storeGrows s s'.
Proof. intros E key v H. left. rewrite <- E. exact H. Qed.

Lemma storeGrows_trans (s1 s2 s3 : Session) :
  storeGrows s1 s2 -> storeGrows s2 s3 -> storeGrows s1 s3.
Proof.
  intros H12 H23 key v H.
  destruct (H23 key v H) as [H2|H2]; [|right; exact H2].
  exact (H12 key v H2).
Qed.

Lemma keyOfHashType_in_hashKeys ty st : In (keyOfHashType ty st) hashKeys.
Proof. destruct ty, st; simpl; tauto. Qed.

Lemma updateHash_storeGrows (w : World) ty st (s : Session) :
  storeGrows s (snd (updateHash w ty st s)).
Proof.
  unfold updateHash. destruct (negb _); [|apply storeGrows_refl].
  intros key v H. simpl in H.
  destruct (decide (key = keyOfHashType ty st)) as [->|Hne].
  - rewrite lookup_insert_eq in H. injection H as <-.
    right. split; [apply keyOfHashType_in_hashKeys|eauto].
  - rewrite lookup_insert_ne in H by congruence. left. exact H.
Qed.

Lemma resolveStateAfterAction_storeGrows (w : World) action hashType
    (s : Session) :
  storeGrows s (resolveStateAfterAction w action hashType s).
Proof.
  rewrite resolveStateAfterAction_unfold. cbv zeta.
  assert (storeGrows s (afterPendingQuery w action hashType s)) as H0
    by (apply storeGrows_same, afterPendingQuery_persistent).
  destruct (pendingActionsRemain w action); [exact H0|].
  eapply storeGrows_trans; [exact H0|].
  eapply storeGrows_trans; apply updateHash_storeGrows.
Qed.

Lemma handle_storeGrows (w : World) (ev : Event) (s : Session) :
  storeGrows s (handle w ev s).
Proof.
  destruct ev; cbn [handle].
  - apply storeGrows_same, onFileChanged_persistent.
  - apply storeGrows_same, onFilesChanged_persistent.
  - unfold onPackratAction.
    destruct (negb _); [apply storeGrows_refl|].
    destruct running; [apply storeGrows_same; reflexivity|].
    destruct (s_runningPackratAction s);
      try (apply storeGrows_same; reflexivity);
      apply (resolveStateAfterAction_storeGrows w _ _
               (set_runningPackratAction PACKRAT_ACTION_NONE s)).
  - unfold onProcessCompleted.
    destruct (processes s !! pid) as [p|]; [|apply storeGrows_refl].
    destruct (isRunning_ p); [|apply storeGrows_refl].
    unfold onCompleted.
    destruct (negb _); [apply storeGrows_same; reflexivity|].
    unfold pendingSnapshot. destruct (0 <? _).
    + apply storeGrows_same. rewrite performAutoSnapshot_persistent.
      reflexivity.
    + apply (resolveStateAfterAction_storeGrows w _ _
               (set_processes (<[pid:=markCompleted p]> (processes s)) s)).
  - intros key v H. rewrite annotatePendingActions_persistent in H.
    revert key v H.
    change (storeGrows s
              (snd (updateHash w HASH_TYPE_LOCKFILE HASH_STATE_OBSERVED
                      (snd (updateHash w HASH_TYPE_LIBRARY
                              HASH_STATE_OBSERVED s))))).
    eapply storeGrows_trans; apply updateHash_storeGrows.
  - apply storeGrows_same, performAutoSnapshot_persistent.
Qed.

Lemma run_storeGrows (tr : list (World * Event)) (s : Session) :
  storeGrows s (run tr s).
Proof.
  unfold run. revert s.
  induction tr as [|[w ev] tr IH]; intros s; simpl; [apply storeGrows_refl|].
  eapply storeGrows_trans; [apply handle_storeGrows|apply IH].
Qed.

(** X11. The module writes nothing to the persistent store but strings under
    its four hash keys: after any sequence of events, from any session, every
    entry of the store is either an entry that was there before, unchanged,
    or a string under one of [packratLockfileResolved],
    [packratLockfileObserved], [packratLibraryResolved],
    [packratLibraryObserved]; starting from the empty store only such
    entries exist. *)
Theorem store_holds_only_hash_strings :
  forall (tr : list (World * Event)) (s : Session) (key : string)
         (v : JsonValue),
    projectPersistent (run tr s) !! key = Some v ->
    (projectPersistent s !! key = Some v
     \/ (In key hashKeys /\ exists str, v = JsonString str)) /\
    (projectPersistent s = ∅ ->
     In key hashKeys /\ exists str, v = JsonString str).
Proof.
  intros tr s key v H.
  pose proof (run_storeGrows tr s key v H) as Hg.
  split; [exact Hg|]. intros Hempty.
  destruct Hg as [Hold|Hnew]; [|exact Hnew].
  rewrite Hempty, lookup_empty in Hold. discriminate.
Qed.

Lemma store_holds_only_hash_strings_witness :
  let w := Scenario.world (Some "X") [("a", "Package: a")] Scenario.noPending in
  let s := run [(w, AnnotatePendingActions)] initialSession in
  projectPersistent s !! "packratLockfileObserved" = Some (JsonString "B7B2364B")
  /\ In "packratLockfileObserved" hashKeys.
Proof.
  intros w s.
  assert (projectPersistent s !! "packratLockfileObserved"
          = Some (JsonString "B7B2364B")) as H by (vm_compute; reflexivity).
  split; [exact H|].
  destruct (store_holds_only_hash_strings
              [(w, AnnotatePendingActions)] initialSession
              "packratLockfileObserved" (JsonString "B7B2364B") H)
    as [_ Hnew].
  destruct (Hnew eq_refl) as [Hin _]. exact Hin.
Defined.

(** ** The subprocess table *)

Lemma tableGrows_refl (s : Session) : tableGrows s s.
Proof. intros i p H. exists p. auto. Qed.

Lemma tableGrows_same (s s' : Session) :
  processes s' = processes s -> tableGrows s s'.
Proof. intros E i p H. exists p. rewrite E. auto. Qed.

Lemma tableGrows_trans (s1 s2 s3 : Session) :
  tableGrows s1 s2 -> tableGrows s2 s3 -> tableGrows s1 s3.
Proof.
  intros H12 H23 i p H.
  destruct (H12 i p H) as (p2 & L2 & T2 & C2 & R2).
  destruct (H23 i p2 L2) as (p3 & L3 & T3 & C3 & R3).
  exists p3. repeat split; try congruence. auto.
Qed.

Lemma performAutoSnapshot_tableGrows (w : World) (h : string) (s : Session) :
  tableGrows s (performAutoSnapshot w h s).
Proof.
  unfold performAutoSnapshot.
  destruct (runningAutoSnapshot s) as [p|].
  - destruct (String.eqb (targetHash_ p) h);
      apply tableGrows_same; reflexivity.
  - intros i q H. exists q. simpl.
    rewrite lookup_app_l by (eapply lookup_lt_Some; exact H). auto.
Qed.

Lemma sameSched_tableGrows (s s' : Session) :
  sameSched s s' -> tableGrows s s'.
Proof. intros (E & _). apply tableGrows_same, E. Qed.

Lemma onProcessCompleted_tableGrows (w : World) pid status (s : Session) :
  tableGrows s (onProcessCompleted w pid status s).
Proof.
  unfold onProcessCompleted.
  destruct (processes s !! pid) as [p|] eqn:Hpid; [|apply tableGrows_refl].
  destruct (isRunning_ p) eqn:Hp; [|apply tableGrows_refl].
  set (s1 := set_processes (<[pid:=markCompleted p]> (processes s)) s).
  assert (tableGrows s s1) as H1.
  { intros i q Hi. subst s1. simpl.
    destruct (decide (i = pid)) as [->|Hne].
    - exists (markCompleted p).
      rewrite list_lookup_insert_eq by (eapply lookup_lt_Some; exact Hpid).
      assert (q = p) as -> by congruence. repeat split.
    - exists q. rewrite list_lookup_insert_ne by congruence. auto. }
  eapply tableGrows_trans; [exact H1|].
  unfold onCompleted. destruct (negb _); [apply tableGrows_refl|].
  unfold pendingSnapshot. destruct (0 <? _).
  - eapply tableGrows_trans;
      [|apply (performAutoSnapshot_tableGrows w _ (set_pendingSnapshots 0 s1))].
    apply tableGrows_same; reflexivity.
  - apply sameSched_tableGrows, resolveStateAfterAction_sameSched.
Qed.

Lemma checkHashes_tableGrows (w : World) ty st onMismatch (s : Session) :
  (forall o n s0, tableGrows s0 (onMismatch o n s0)) ->
  tableGrows s (checkHashes w ty st onMismatch s).
Proof.
  intros Hcb. unfold checkHashes.
  destruct (checkingHashes s); [apply tableGrows_refl|].
  destruct (String.eqb _ _); [apply tableGrows_same; reflexivity|].
  intros i p H.
  destruct (Hcb (getHash w ty st (set_checkingHashes true s))
              (getHash w ty HASH_STATE_COMPUTED (set_checkingHashes true s))
              (set_checkingHashes true s) i p H) as (p' & Hp').
  exists p'. exact Hp'.
Qed.

Lemma onFileChanged_tableGrows (w : World) (p : FilePath) (s : Session) :
  tableGrows s (onFileChanged w p s).
Proof.
  unfold onFileChanged.
  destruct (negb (bool_decide _)); [apply tableGrows_refl|].
  destruct (String.eqb (filename p) kPackratLockfile).
  - apply checkHashes_tableGrows. intros; apply tableGrows_same; reflexivity.
  - destruct (_ && _); [|apply tableGrows_refl].
    destruct (_ || _); [apply tableGrows_refl|].
    apply checkHashes_tableGrows. intros o n s0. unfold onLibraryUpdate.
    destruct (negb _); [apply performAutoSnapshot_tableGrows|].
    apply tableGrows_same; reflexivity.
Qed.

Lemma handle_tableGrows (w : World) (ev : Event) (s : Session) :
  tableGrows s (handle w ev s).
Proof.
  destruct ev; cbn [handle].
  - apply onFileChanged_tableGrows.
  - unfold onFilesChanged. revert s.
    induction changes as [|p ps IH]; intros s; simpl; [apply tableGrows_refl|].
    eapply tableGrows_trans; [apply onFileChanged_tableGrows|apply IH].
  - unfold onPackratAction.
    destruct (negb _); [apply tableGrows_refl|].
    destruct running; [apply tableGrows_same; reflexivity|].
    destruct (s_runningPackratAction s);
      try (apply tableGrows_same; reflexivity);
      apply (sameSched_tableGrows
               (set_runningPackratAction PACKRAT_ACTION_NONE s)),
            resolveStateAfterAction_sameSched.
  - apply onProcessCompleted_tableGrows.
  - apply sameSched_tableGrows, annotatePendingActions_sameSched.
  - apply performAutoSnapshot_tableGrows.
Qed.

(** X12. The table of snapshot subprocesses only grows, and no entry is ever
    rewritten but to stop it: through any sequence of events every subprocess
    keeps its place, its target hash and its command, and one that has
    stopped never runs again.  A later request never replaces the target of
    a run, in flight or finished. *)
Theorem subprocess_targets_never_change :
  forall (tr : list (World * Event)) (s : Session) (i : nat)
         (p : AutoSnapshot),
    processes s !! i = Some p ->
    exists p' : AutoSnapshot,
      processes (run tr s) !! i = Some p' /\
      targetHash_ p' = targetHash_ p /\
      snapshotCmd_ p' = snapshotCmd_ p /\
      (isRunning_ p = false -> isRunning_ p' = false).
Proof.
  intros tr. unfold run.
  induction tr as [|[w ev] tr IH]; intros s; simpl; [apply tableGrows_refl|].
  apply (tableGrows_trans s (handle w ev s)); [apply handle_tableGrows|].
  exact (IH (handle w ev s)).
Qed.

Lemma subprocess_targets_never_change_witness :
  let w := Scenario.world (Some "X") [("a", "Package: a")] Scenario.noPending in
  let s := run [(w, RequestSnapshot "H1")] initialSession in
  let s' := run [(w, RequestSnapshot "H2"); (w, ProcessCompleted 0 0)] s in
  targetHash_ <$> processes s' !! 0%nat = Some "H1".
Proof.
  intros w s s'.
  destruct (subprocess_targets_never_change
              [(w, RequestSnapshot "H2"); (w, ProcessCompleted 0 0)] s
              0%nat (startedFor w "H1") eq_refl) as (p' & Hp' & Ht & _).
  fold s' in Hp'. rewrite Hp'. simpl. rewrite Ht. reflexivity.
Defined.

(** ** The scheduler, state by state *)

Lemma activeProcesses_nil_idle (s : Session) :
  SchedInv s -> activeProcesses s = [] -> runningAutoSnapshot s = None.
Proof.
  intros Hinv H. rewrite (activeProcesses_running s Hinv) in H.
  destruct (runningAutoSnapshot s); [discriminate|reflexivity].
Qed.

Lemma idle_activeProcesses_nil (s : Session) :
  SchedInv s -> runningAutoSnapshot s = None -> activeProcesses s = [].
Proof.
  intros Hinv H. rewrite (activeProcesses_running s Hinv), H. reflexivity.
Qed.

Lemma performAutoSnapshot_idle (w : World) (h : string) (s : Session) :
  runningAutoSnapshot s = None ->
  performAutoSnapshot w h s
  = set_pAutoSnapshot (Some (List.length (processes s)))
      (set_processes (processes s ++ [startedFor w h])
         (set_rCalls (rCalls s ++ [RCallGetAutoSnapshotCmd]) s)).
Proof. intros H. unfold performAutoSnapshot. rewrite H. reflexivity. Qed.

Lemma runningAutoSnapshot_started (w : World) (h : string) (s : Session) :
  runningAutoSnapshot s = None ->
  runningAutoSnapshot (performAutoSnapshot w h s) = Some (startedFor w h).
Proof.
  intros H. rewrite performAutoSnapshot_idle by exact H.
  unfold runningAutoSnapshot. simpl.
  rewrite lookup_app_r by lia. rewrite Nat.sub_diag. reflexivity.
Qed.

(** X13. A request made while no subprocess is active always starts one:
    in any reachable session with no active subprocess,
    [performAutoSnapshot w h] appends one running subprocess with target [h]
    to the table, makes it the current run and the only active one, and
    leaves the pending counter alone.  An error of [.rs.getAutoSnapshotCmd]
    does not prevent the start: the subprocess is then started with an empty
    command. *)
Theorem idle_request_starts_run :
  forall (tr : list (World * Event)) (w : World) (h : string),
    let s := run tr initialSession in
    activeProcesses s = [] ->
    let s' := performAutoSnapshot w h s in
    processes s' = processes s ++ [startedFor w h] /\
    pAutoSnapshot s' = Some (List.length (processes s)) /\
    activeProcesses s' = [startedFor w h] /\
    pendingSnapshots s' = pendingSnapshots s /\
    targetHash_ (startedFor w h) = h /\
    (rs_getAutoSnapshotCmd w = None -> snapshotCmd_ (startedFor w h) = "").
Proof.
  intros tr w h s Hidle s'.
  assert (SchedInv s) as Hinv by apply reachable_inv.
  pose proof (activeProcesses_nil_idle s Hinv Hidle) as Hnone.
  assert (SchedInv s') as Hinv' by (apply performAutoSnapshot_inv, Hinv).
  rewrite (activeProcesses_running s' Hinv').
  subst s'. rewrite (runningAutoSnapshot_started w h s Hnone).
  rewrite (performAutoSnapshot_idle w h s Hnone). simpl.
  repeat split. intros ->. reflexivity.
Qed.

Lemma idle_request_starts_run_witness :
  let w := mkWorld Scenario.projectDir (fun _ => false) (fun _ => false)
             (fun _ => None) (fun _ => []) Scenario.noPending None
             (fun _ => true) in
  activeProcesses (performAutoSnapshot w "H1" initialSession)
  = [startedFor w "H1"] /\
  snapshotCmd_ (startedFor w "H1") = "".
Proof.
  intros w.
  destruct (idle_request_starts_run [] w "H1" eq_refl)
    as (_ & _ & Hactive & _ & _ & Hcmd).
  split; [exact Hactive | exact (Hcmd eq_refl)].
Defined.

Lemma onProcessCompleted_running (w : World) pid status (s : Session)
    (p : AutoSnapshot) :
  processes s !! pid = Some p -> isRunning_ p = true ->
  onProcessCompleted w pid status s
  = onCompleted w status
      (set_processes (<[pid := markCompleted p]> (processes s)) s).
Proof.
  intros Hpid Hp. unfold onProcessCompleted. rewrite Hpid, Hp. reflexivity.
Qed.

Lemma runningAutoSnapshot_after_exit (s : Session) pid (p : AutoSnapshot) :
  SchedInv s ->
  processes s !! pid = Some p -> isRunning_ p = true ->
  runningAutoSnapshot
    (set_processes (<[pid := markCompleted p]> (processes s)) s) = None.
Proof.
  intros [Hrun _] Hpid Hp. unfold runningAutoSnapshot. simpl.
  rewrite (Hrun pid p Hpid Hp).
  rewrite list_lookup_insert_eq by (eapply lookup_lt_Some; exact Hpid).
  reflexivity.
Qed.

Lemma runningAutoSnapshot_sameSched (s s' : Session) :
  sameSched s s' -> runningAutoSnapshot s' = runningAutoSnapshot s.
Proof.
  intros (E1 & E2 & _). unfold runningAutoSnapshot. rewrite E1, E2.
  reflexivity.
Qed.

Lemma onProcessCompleted_resolves (w : World) pid (s : Session)
    (p : AutoSnapshot) :
  SchedInv s ->
  processes s !! pid = Some p -> isRunning_ p = true ->
  pendingSnapshots s <= 0 ->
  let stopped := set_processes (<[pid := markCompleted p]> (processes s)) s in
  let s' := onProcessCompleted w pid 0 s in
  s' = resolveStateAfterAction w PACKRAT_ACTION_SNAPSHOT HASH_TYPE_LIBRARY
         stopped /\
  sameSched stopped s' /\
  runningAutoSnapshot s' = None.
Proof.
  intros Hinv Hpid Hp Hcount stopped s'.
  assert (s' = resolveStateAfterAction w PACKRAT_ACTION_SNAPSHOT
                 HASH_TYPE_LIBRARY stopped) as Hs'.
  { subst s'. rewrite (onProcessCompleted_running w pid 0 s p Hpid Hp).
    unfold onCompleted, pendingSnapshot. simpl negb. cbv iota.
    simpl pendingSnapshots.
    apply Z.ltb_ge in Hcount. rewrite Hcount. reflexivity. }
  split; [exact Hs'|]. rewrite Hs'.
  split; [apply resolveStateAfterAction_sameSched|].
  rewrite (runningAutoSnapshot_sameSched stopped)
    by apply resolveStateAfterAction_sameSched.
  apply runningAutoSnapshot_after_exit; assumption.
Qed.

Lemma onProcessCompleted_restarts (w : World) pid (s : Session)
    (p : AutoSnapshot) :
  SchedInv s ->
  processes s !! pid = Some p -> isRunning_ p = true ->
  0 < pendingSnapshots s ->
  onProcessCompleted w pid 0 s
  = set_pAutoSnapshot (Some (List.length (processes s)))
      (set_processes
         (<[pid := markCompleted p]> (processes s)
          ++ [startedFor w (computeLibraryHash w)])
         (set_rCalls (rCalls s ++ [RCallGetAutoSnapshotCmd])
            (set_pendingSnapshots 0 s))).
Proof.
  intros Hinv Hpid Hp Hpos.
  rewrite (onProcessCompleted_running w pid 0 s p Hpid Hp).
  unfold onCompleted, pendingSnapshot. simpl negb. cbv iota.
  simpl pendingSnapshots. apply Z.ltb_lt in Hpos. rewrite Hpos.
  rewrite performAutoSnapshot_idle.
  - simpl. rewrite length_insert. reflexivity.
  - apply (runningAutoSnapshot_after_exit s pid p Hinv Hpid Hp).
Qed.

(** X14. In any reachable session, when the running subprocess exits with
    status 0 and no request is pending (the counter is not positive), the
    exit is resolved at once as a completed snapshot of the library, and the
    scheduler is idle afterwards: no subprocess is active, none was started,
    and the counter is unchanged. *)
Theorem exit_without_pending_resolves :
  forall (tr : list (World * Event)) (w : World) (pid : nat)
         (p : AutoSnapshot),
    let s := run tr initialSession in
    processes s !! pid = Some p ->
    isRunning_ p = true ->
    pendingSnapshots s <= 0 ->
    let stopped :=
      set_processes (<[pid := markCompleted p]> (processes s)) s in
    let s' := onProcessCompleted w pid 0 s in
    s' = resolveStateAfterAction w PACKRAT_ACTION_SNAPSHOT HASH_TYPE_LIBRARY
           stopped /\
    processes s' = <[pid := markCompleted p]> (processes s) /\
    activeProcesses s' = [] /\
    pendingSnapshots s' = pendingSnapshots s.
Proof.
  intros tr w pid p s Hpid Hp Hcount stopped s'.
  assert (SchedInv s) as Hinv by apply reachable_inv.
  assert (SchedInv s') as Hinv' by (apply onProcessCompleted_inv, Hinv).
  destruct (onProcessCompleted_resolves w pid s p Hinv Hpid Hp Hcount)
    as (Hs' & (E1 & _ & E3) & Hnone).
  split; [exact Hs'|]. split; [exact E1|]. split; [|exact E3].
  apply idle_activeProcesses_nil; assumption.
Qed.

Lemma exit_without_pending_resolves_witness :
  let w := Scenario.world (Some "X") [("a", "Package: a")] Scenario.noPending in
  let s := run [(w, RequestSnapshot "A4DCA127")] initialSession in
  activeProcesses (onProcessCompleted w 0 0 s) = [] /\
  getHash w HASH_TYPE_LIBRARY HASH_STATE_RESOLVED (onProcessCompleted w 0 0 s)
  = "A4DCA127".
Proof.
  intros w s.
  destruct (exit_without_pending_resolves
              [(w, RequestSnapshot "A4DCA127")] w 0%nat
              (startedFor w "A4DCA127") eq_refl eq_refl
              ltac:(vm_compute; discriminate)) as (_ & _ & Hactive & _).
  split; [exact Hactive|]. vm_compute. reflexivity.
Defined.

(** X15. In any reachable session, when the running subprocess exits with a
    non-zero status the scheduler becomes idle and keeps the pending counter
    as it is: requests queued during the failed run are neither served nor
    dropped.  The next request, for any hash (that of the failed run
    included), starts a new subprocess. *)
Theorem failed_exit_leaves_scheduler_idle :
  forall (tr : list (World * Event)) (w : World) (pid : nat) (status : Z)
         (p : AutoSnapshot),
    let s := run tr initialSession in
    processes s !! pid = Some p ->
    isRunning_ p = true ->
    status <> 0 ->
    let s' := onProcessCompleted w pid status s in
    activeProcesses s' = [] /\
    pendingSnapshots s' = pendingSnapshots s /\
    forall (w' : World) (h : string),
      activeProcesses (performAutoSnapshot w' h s') = [startedFor w' h].
Proof.
  intros tr w pid status p s Hpid Hp Hst s'.
  assert (SchedInv s) as Hinv by apply reachable_inv.
  assert (SchedInv s') as Hinv' by (apply onProcessCompleted_inv, Hinv).
  assert (s' = set_processes (<[pid := markCompleted p]> (processes s)) s)
    as Hs' by (apply onProcessCompleted_failure; assumption).
  assert (runningAutoSnapshot s' = None) as Hnone
    by (rewrite Hs'; apply runningAutoSnapshot_after_exit; assumption).
  split; [apply idle_activeProcesses_nil; assumption|].
  split; [rewrite Hs'; reflexivity|].
  intros w' h.
  rewrite (activeProcesses_running _ (performAutoSnapshot_inv w' h s' Hinv')).
  rewrite (runningAutoSnapshot_started w' h s' Hnone). reflexivity.
Qed.

Lemma failed_exit_leaves_scheduler_idle_witness :
  let w := Scenario.world (Some "X") [("a", "Package: a")] Scenario.noPending in
  let s := run [(w, RequestSnapshot "H1"); (w, RequestSnapshot "H2")]
             initialSession in
  let s' := onProcessCompleted w 0 1 s in
  activeProcesses s' = [] /\ pendingSnapshots s' = 1 /\
  targetHash_ <$> activeProcesses (performAutoSnapshot w "H1" s') = ["H1"].
Proof.
  intros w s s'. subst s' s.
  destruct (failed_exit_leaves_scheduler_idle
              [(w, RequestSnapshot "H1"); (w, RequestSnapshot "H2")]
              w 0%nat 1 (startedFor w "H1") eq_refl eq_refl
              ltac:(discriminate)) as (Hidle & Hcount & Hnext).
  split; [exact Hidle|]. split; [rewrite Hcount; reflexivity|].
  rewrite (Hnext w "H1"). reflexivity.
Defined.

Lemma set_pendingSnapshots_same (s : Session) (n : Z) :
  n = pendingSnapshots s -> set_pendingSnapshots n s = s.
Proof. intros ->. destruct s; reflexivity. Qed.

Lemma requests_while_running (w : World) (hs : list string) (s : Session)
    (p : AutoSnapshot) :
  runningAutoSnapshot s = Some p ->
  INT_MIN <= pendingSnapshots s ->
  pendingSnapshots s + Z.of_nat (List.length hs) <= INT_MAX ->
  requests w hs s
  = set_pendingSnapshots
      (pendingSnapshots s + differing (targetHash_ p) hs) s.
Proof.
  unfold requests, differing. revert s.
  induction hs as [|h hs IH]; intros s Hrun Hlo Hhi.
  - simpl. symmetry. apply set_pendingSnapshots_same. lia.
  - cbn [fold_left List.filter]. cbn [List.length] in Hhi.
    unfold performAutoSnapshot at 2. rewrite Hrun.
    destruct (String.eqb (targetHash_ p) h); cbn [negb].
    + apply IH; [exact Hrun|exact Hlo|lia].
    + unfold pendingSnapshot_set, int_incr.
      rewrite int_wrap_id by (unfold INT_MIN, INT_MAX in *; lia).
      rewrite IH; [|exact Hrun|simpl; lia|simpl; lia].
      cbn [List.length]. simpl pendingSnapshots.
      destruct s; unfold set_pendingSnapshots; simpl. f_equal. lia.
Qed.

(** X16. While a run is active the pending counter counts exactly the
    requests whose hash differs from the target of that run: a sequence of
    requests made in a reachable session with active run [p] changes nothing
    but the counter, which grows by the number of requests that do not match
    [p]'s target (as long as that stays within [int]).  Requests for the
    target itself are absorbed whatever comes between them. *)
Theorem pending_counter_counts_differing_requests :
  forall (tr : list (World * Event)) (w : World) (hs : list string)
         (p : AutoSnapshot),
    let s := run tr initialSession in
    In p (activeProcesses s) ->
    pendingSnapshots s + Z.of_nat (List.length hs) <= INT_MAX ->
    requests w hs s
    = set_pendingSnapshots
        (pendingSnapshots s + differing (targetHash_ p) hs) s.
Proof.
  intros tr w hs p s Hin Hhi.
  assert (SchedInv s) as Hinv by apply reachable_inv.
  rewrite (activeProcesses_running s Hinv) in Hin.
  destruct (runningAutoSnapshot s) as [q|] eqn:Hrun; [|destruct Hin].
  destruct Hin as [->|[]].
  apply requests_while_running; [exact Hrun|apply Hinv|exact Hhi].
Qed.

Lemma pending_counter_counts_differing_requests_witness :
  let w := Scenario.world (Some "X") [("a", "Package: a")] Scenario.noPending in
  let s := run [(w, RequestSnapshot "H1")] initialSession in
  pendingSnapshots (requests w ["H2"; "H1"; "H3"; "H1"; "H2"] s) = 3.
Proof.
  intros w s. subst s.
  rewrite (pending_counter_counts_differing_requests
             [(w, RequestSnapshot "H1")] w ["H2"; "H1"; "H3"; "H1"; "H2"]
             (startedFor w "H1")
             ltac:(left; reflexivity)
             ltac:(vm_compute; discriminate)).
  reflexivity.
Defined.

Lemma exitCurrent_running (w : World) (s : Session) (p : AutoSnapshot) :
  runningAutoSnapshot s = Some p ->
  exists pid, pAutoSnapshot s = Some pid /\ processes s !! pid = Some p
              /\ isRunning_ p = true
              /\ exitCurrent w s = onProcessCompleted w pid 0 s.
Proof.
  intros Hrun.
  destruct (runningAutoSnapshot_lookup s p Hrun) as (pid & Hptr & Hpid & Hp).
  exists pid. unfold exitCurrent. rewrite Hptr. auto.
Qed.

Lemma exitCurrent_idle (w : World) (s : Session) :
  runningAutoSnapshot s = None -> exitCurrent w s = s.
Proof.
  unfold exitCurrent, runningAutoSnapshot, onProcessCompleted.
  destruct (pAutoSnapshot s) as [i|]; [|reflexivity].
  destruct (processes s !! i) as [q|]; [|reflexivity].
  destruct (isRunning_ q); [discriminate|reflexivity].
Qed.

Lemma resolved_after_exit (w : World) pid (s : Session) (p : AutoSnapshot) :
  SchedInv s ->
  processes s !! pid = Some p -> isRunning_ p = true ->
  pendingSnapshots s <= 0 ->
  pendingActionsRemain w PACKRAT_ACTION_SNAPSHOT = false ->
  let s' := onProcessCompleted w pid 0 s in
  runningAutoSnapshot s' = None /\
  pendingSnapshots s' = pendingSnapshots s /\
  getHash w HASH_TYPE_LIBRARY HASH_STATE_RESOLVED s' = computeLibraryHash w /\
  getHash w HASH_TYPE_LOCKFILE HASH_STATE_RESOLVED s' = computeLockfileHash w.
Proof.
  intros Hinv Hpid Hp Hcount Hnone s'.
  destruct (onProcessCompleted_resolves w pid s p Hinv Hpid Hp Hcount)
    as (Hs' & (_ & _ & E3) & Hidle).
  fold s' in Hs', E3, Hidle.
  split; [exact Hidle|]. split; [exact E3|].
  pose proof (resolveStateAfterAction_resolved w PACKRAT_ACTION_SNAPSHOT
                HASH_TYPE_LIBRARY
                (set_processes (<[pid := markCompleted p]> (processes s)) s))
    as Hres.
  cbv zeta in Hres. rewrite Hnone in Hres. rewrite <- Hs' in Hres.
  destruct Hres as [Hlock Hlib]. split; assumption.
Qed.

(** X17. The scheduler converges.  Take any reachable session with an active
    run, whatever requests were queued behind it, and let the world stay as
    it is with no snapshot action left pending: after the current run has
    exited with status 0, and then the run this may have started has too, no
    subprocess is active, none is queued, and the stored RESOLVED hashes of
    the library and of the lockfile are the computed ones.  At most one
    extra run is needed however many requests were queued. *)
Theorem scheduler_converges :
  forall (tr : list (World * Event)) (w : World),
    let s := run tr initialSession in
    activeProcesses s <> [] ->
    fst (fst (getPendingActions w PACKRAT_ACTION_SNAPSHOT None s)) = false ->
    let s2 := exitCurrent w (exitCurrent w s) in
    activeProcesses s2 = [] /\
    pendingSnapshots s2 <= 0 /\
    getHash w HASH_TYPE_LIBRARY HASH_STATE_RESOLVED s2 = computeLibraryHash w /\
    getHash w HASH_TYPE_LOCKFILE HASH_STATE_RESOLVED s2
    = computeLockfileHash w /\
    exitCurrent w s2 = s2.
Proof.
  intros tr w s Hactive Hnone s2.
  rewrite getPendingActions_null in Hnone. simpl in Hnone.
  assert (SchedInv s) as Hinv by apply reachable_inv.
  assert (SchedInv (exitCurrent w s)) as Hinv1.
  { unfold exitCurrent. destruct (pAutoSnapshot s); [|exact Hinv].
    apply onProcessCompleted_inv, Hinv. }
  assert (SchedInv s2) as Hinv2.
  { subst s2. unfold exitCurrent at 1.
    destruct (pAutoSnapshot (exitCurrent w s)); [|exact Hinv1].
    apply onProcessCompleted_inv, Hinv1. }
  rewrite (activeProcesses_running s Hinv) in Hactive.
  destruct (runningAutoSnapshot s) as [p|] eqn:Hrun; [|contradiction].
  destruct (exitCurrent_running w s p Hrun) as (pid & Hptr & Hpid & Hp & He).
  assert (runningAutoSnapshot s2 = None /\ pendingSnapshots s2 <= 0 /\
          getHash w HASH_TYPE_LIBRARY HASH_STATE_RESOLVED s2
          = computeLibraryHash w /\
          getHash w HASH_TYPE_LOCKFILE HASH_STATE_RESOLVED s2
          = computeLockfileHash w) as (Hidle & Hcount & Hlib & Hlock).
  { destruct (Z.ltb_spec 0 (pendingSnapshots s)) as [Hpos|Hle].
    - pose proof (onProcessCompleted_restarts w pid s p Hinv Hpid Hp Hpos)
        as Hs1.
      rewrite <- He in Hs1.
      set (q := startedFor w (computeLibraryHash w)) in *.
      assert (runningAutoSnapshot (exitCurrent w s) = Some q) as Hrun1.
      { rewrite Hs1. unfold runningAutoSnapshot. simpl.
        rewrite lookup_app_r by (rewrite length_insert; lia).
        rewrite length_insert, Nat.sub_diag. reflexivity. }
      destruct (exitCurrent_running w _ q Hrun1)
        as (pid1 & _ & Hpid1 & Hq & He1).
      fold s2 in He1.
      assert (pendingSnapshots (exitCurrent w s) = 0) as Hzero
        by (rewrite Hs1; reflexivity).
      destruct (resolved_after_exit w pid1 (exitCurrent w s) q Hinv1 Hpid1 Hq
                  ltac:(lia) Hnone) as (R1 & R2 & R3 & R4).
      rewrite <- He1 in R1, R2, R3, R4.
      repeat split; try assumption. lia.
    - destruct (resolved_after_exit w pid s p Hinv Hpid Hp Hle Hnone)
        as (R1 & R2 & R3 & R4).
      rewrite <- He in R1, R2, R3, R4.
      assert (s2 = exitCurrent w s) as -> by (apply exitCurrent_idle, R1).
      repeat split; try assumption. lia. }
  split; [apply idle_activeProcesses_nil; assumption|].
  repeat split; try assumption. apply exitCurrent_idle, Hidle.
Qed.

Lemma scheduler_converges_witness :
  let w := Scenario.world (Some "X") [("a", "Package: a")] Scenario.noPending in
  let s := run [(w, RequestSnapshot "H1"); (w, RequestSnapshot "H2");
                (w, RequestSnapshot "H3")] initialSession in
  let s2 := exitCurrent w (exitCurrent w s) in
  activeProcesses s2 = [] /\
  getHash w HASH_TYPE_LIBRARY HASH_STATE_RESOLVED s2 = "A4DCA127" /\
  targetHash_ <$> processes s2 = ["H1"; "A4DCA127"].
Proof.
  intros w s s2. subst s2 s.
  destruct (scheduler_converges
              [(w, RequestSnapshot "H1"); (w, RequestSnapshot "H2");
               (w, RequestSnapshot "H3")] w
              ltac:(vm_compute; discriminate) eq_refl)
    as (Hidle & _ & Hlib & _).
  split; [exact Hidle|]. split; [rewrite Hlib; vm_compute; reflexivity|].
  vm_compute. reflexivity.
Defined.

(** ** Action notifications *)

Lemma set_runningPackratAction_same (s : Session) a :
  a = s_runningPackratAction s -> set_runningPackratAction a s = s.
Proof. intros ->. destruct s; reflexivity. Qed.

(** X18. The recorded action is a single slot.  A start overwrites whatever
    was recorded: two starts in a row leave the session as the second alone
    would, so the stop that follows resolves for the second action only.
    A stop empties the slot, so a stop that finds nothing recorded (a second
    stop in a row, or a stop with no start) changes nothing at all. *)
Theorem running_action_single_slot :
  forall (w1 w2 : World) (project1 project2 action1 action2 : string)
         (s : Session),
    realPathsEqual w2 project2 = true ->
    onPackratAction w2 project2 action2 true
      (onPackratAction w1 project1 action1 true s)
    = onPackratAction w2 project2 action2 true s /\
    (s_runningPackratAction s = PACKRAT_ACTION_NONE ->
     onPackratAction w2 project2 action2 false s = s) /\
    onPackratAction w2 project2 action2 false
      (onPackratAction w1 project1 action1 false
         (onPackratAction w2 project2 action2 false s))
    = onPackratAction w1 project1 action1 false
        (onPackratAction w2 project2 action2 false s).
Proof.
  intros w1 w2 project1 project2 action1 action2 s Hproj.
  assert (forall s0, s_runningPackratAction s0 = PACKRAT_ACTION_NONE ->
                     forall w project action,
                       onPackratAction w project action false s0 = s0)
    as Hnone.
  { intros s0 H0 w project action. unfold onPackratAction.
    destruct (negb _); [reflexivity|]. simpl. rewrite H0.
    apply set_runningPackratAction_same. symmetry. exact H0. }
  split; [|split].
  - unfold onPackratAction. rewrite Hproj. simpl.
    destruct (negb (realPathsEqual w1 project1)); reflexivity.
  - intros H0. apply Hnone. exact H0.
  - apply Hnone.
    rewrite (Hnone (onPackratAction w2 project2 action2 false s)
               (onPackratAction_stop_clears w2 project2 action2 s Hproj)).
    apply onPackratAction_stop_clears. exact Hproj.
Qed.

Lemma running_action_single_slot_witness :
  let w := Scenario.world (Some "X") [("a", "Package: a")] Scenario.noPending in
  s_runningPackratAction
    (onPackratAction w "/home/user/proj" "restore" true
       (onPackratAction w "/home/user/proj" "snapshot" true initialSession))
  = PACKRAT_ACTION_RESTORE /\
  onPackratAction w "/home/user/proj" "restore" false initialSession
  = initialSession.
Proof.
  intros w.
  destruct (running_action_single_slot w w "/home/user/proj" "/home/user/proj"
              "snapshot" "restore" initialSession eq_refl)
    as (Hover & Hstop & _).
  split; [rewrite Hover; reflexivity | apply Hstop; reflexivity].
Defined.

(** ** Context and options *)

(** X19. The four context flags are nested.  Provided the default-constructed
    context has [packified] and [modeOn] unset, whatever the package check
    and the R calls answer, and whether or not they fail, [packratContext]
    reports mode-on only for a packified project, packified only when
    applicable, and applicable only when the package is available and a
    project is open. *)
Theorem packratContext_flags_nested :
  forall (cw : ContextWorld) (context0 : PackratContext),
    packified context0 = false ->
    modeOn context0 = false ->
    let context := packratContext cw context0 in
    (modeOn context = true -> packified context = true) /\
    (packified context = true -> applicable context = true) /\
    (applicable context = true ->
     available context = true /\ hasProject cw = true) /\
    available context = isRequiredPackratInstalled cw.
Proof.
  intros cw context0 Hp Hm context. subst context. unfold packratContext.
  destruct (isRequiredPackratInstalled cw) eqn:Ha;
    destruct (hasProject cw) eqn:Hh; simpl;
    rewrite ?Hp, ?Hm; try (repeat split; intros; congruence).
  destruct (rs_checkPackified cw) as [[]|]; rewrite ?Hp;
    destruct (rs_isPackratModeOn cw) as [[]|]; rewrite ?Hm;
    repeat split; intros; congruence.
Qed.

Lemma packratContext_flags_nested_witness :
  let cw := mkContextWorld (fun _ _ => true) true None (Some true) None
              (fun _ _ v _ => (false, v)) in
  let context := packratContext cw (mkPackratContext false false false false) in
  applicable context = true /\ packified context = false
  /\ modeOn context = false.
Proof.
  intros cw context.
  destruct (packratContext_flags_nested cw
              (mkPackratContext false false false false) eq_refl eq_refl)
    as (Hmode & Hpack & Happ & _).
  fold context in Hmode, Hpack, Happ.
  assert (packified context = false) as Hp by reflexivity.
  split; [reflexivity|]. split; [exact Hp|].
  destruct (modeOn context) eqn:E; [|reflexivity].
  rewrite (Hmode eq_refl) in Hp. discriminate.
Defined.

Lemma copyOption_lookup (cw : ContextWorld) optionsSEXP listName o jsonName
    defaultValue (key : string) :
  copyOption cw optionsSEXP listName o jsonName defaultValue !! key
  = if decide (jsonName = key)
    then Some (JsonBool (snd (getNamedListElement cw optionsSEXP listName
                                defaultValue defaultValue)))
    else o !! key.
Proof. unfold copyOption. apply lookup_insert. Qed.

(** X20. [packratOptionsAsJson] always answers with exactly the three
    options [auto_snapshot], [vcs_ignore_lib] and [vcs_ignore_src], each a
    boolean, whatever the R calls return.  When the project is not packified,
    or when reading the options fails, the answer is the default: auto
    snapshot on, library ignored in version control, sources not. *)
Theorem packratOptionsAsJson_three_booleans :
  forall (cw : ContextWorld) (context0 : PackratContext),
    let options := packratOptionsAsJson cw context0 in
    (forall key : string,
        (exists b, options !! key = Some (JsonBool b)) <->
        key = "auto_snapshot" \/ key = "vcs_ignore_lib"
        \/ key = "vcs_ignore_src") /\
    (forall key : string,
        options !! key = None \/ exists b, options !! key = Some (JsonBool b)) /\
    (packified (packratContext cw context0) = false
     \/ rs_get_opts cw = None ->
     options !! "auto_snapshot" = Some (JsonBool true) /\
     options !! "vcs_ignore_lib" = Some (JsonBool true) /\
     options !! "vcs_ignore_src" = Some (JsonBool false)).
Proof.
  intros cw context0 options.
  assert (forall key : string,
             options !! key =
               if decide ("vcs_ignore_src" = key) then options !! key
               else if decide ("vcs_ignore_lib" = key) then options !! key
               else if decide ("auto_snapshot" = key) then options !! key
               else None) as Hother.
  { intros key. subst options. unfold packratOptionsAsJson.
    repeat case_decide; try reflexivity.
    destruct (packified _); [destruct (rs_get_opts cw)|];
      unfold defaultPackratOptions;
      rewrite ?copyOption_lookup, ?lookup_insert;
      repeat case_decide; try congruence; apply lookup_empty. }
  assert (forall key : string,
             key = "auto_snapshot" \/ key = "vcs_ignore_lib"
             \/ key = "vcs_ignore_src" ->
             exists b, options !! key = Some (JsonBool b)) as Hthree.
  { intros key Hkey. subst options. unfold packratOptionsAsJson.
    destruct (packified _); [destruct (rs_get_opts cw)|];
      unfold defaultPackratOptions;
      rewrite ?copyOption_lookup, ?lookup_insert;
      destruct Hkey as [->|[->| ->]];
      repeat (case_decide; try congruence); eauto. }
  split; [|split].
  - intros key. split.
    + intros [b Hb]. rewrite Hother in Hb.
      repeat case_decide; subst; auto. discriminate.
    + apply Hthree.
  - intros key. rewrite (Hother key).
    repeat case_decide; subst; auto; right; apply Hthree; auto.
  - intros Hdefault. subst options. unfold packratOptionsAsJson.
    destruct Hdefault as [Hd|Hd]; rewrite Hd;
      [|destruct (packified _)]; repeat split; reflexivity.
Qed.

Lemma packratOptionsAsJson_three_booleans_witness :
  let cw := mkContextWorld (fun _ _ => true) true (Some true) (Some true) None
              (fun _ _ v _ => (false, v)) in
  packratOptionsAsJson cw (mkPackratContext false false false false)
    !! "vcs_ignore_src" = Some (JsonBool false) /\
  exists b, packratOptionsAsJson cw (mkPackratContext false false false false)
              !! "auto_snapshot" = Some (JsonBool b).
Proof.
  intros cw.
  destruct (packratOptionsAsJson_three_booleans cw
              (mkPackratContext false false false false))
    as (Hkeys & _ & Hdefault).
  split.
  - destruct (Hdefault (or_intror eq_refl)) as (_ & _ & H). exact H.
  - apply Hkeys. left. reflexivity.
Defined.

(** ** File events *)

(** X21. A change of the lockfile never reaches the scheduler: for a path
    named "packrat.lock", wherever it lies, [onFileChanged] leaves the
    subprocess table, the current run and the pending counter as they are,
    makes no R call and writes nothing; all it may do is enqueue one
    refresh. *)
Theorem lockfile_change_only_refreshes :
  forall (w : World) (p : FilePath) (s : Session),
    filename p = kPackratLockfile ->
    let s' := onFileChanged w p s in
    processes s' = processes s /\
    pAutoSnapshot s' = pAutoSnapshot s /\
    pendingSnapshots s' = pendingSnapshots s /\
    rCalls s' = rCalls s /\
    projectPersistent s' = projectPersistent s /\
    s_runningPackratAction s' = s_runningPackratAction s /\
    (clientEvents s' = clientEvents s
     \/ clientEvents s' = clientEvents s ++ [kInstalledPackagesChanged]).
Proof.
  intros w p s Hname s'. subst s'. unfold onFileChanged.
  rewrite Hname, String.eqb_refl.
  destruct (negb (bool_decide _)); [repeat split; left; reflexivity|].
  unfold checkHashes, onLockfileUpdate.
  destruct (checkingHashes s); [repeat split; left; reflexivity|].
  destruct (String.eqb _ _); simpl; repeat split; auto.
Qed.

Lemma lockfile_change_only_refreshes_witness :
  let w := Scenario.world (Some "X") [("a", "Package: a")] Scenario.noPending in
  processes (onFileChanged w Scenario.lockfilePath initialSession) = [] /\
  processes (onFileChanged w (Scenario.descPath "a") initialSession) <> [].
Proof.
  intros w.
  destruct (lockfile_change_only_refreshes w Scenario.lockfilePath
              initialSession eq_refl) as (Hprocs & _).
  split; [exact Hprocs|]. vm_compute. discriminate.
Defined.

Lemma onFileChanged_up_to_date (w : World) (p : FilePath) (s : Session) :
  (forall ty, getHash w ty HASH_STATE_OBSERVED s
              = getHash w ty HASH_STATE_COMPUTED s) ->
  onFileChanged w p s = s.
Proof.
  intros Hobs. unfold onFileChanged.
  destruct (negb (bool_decide _)); [reflexivity|].
  destruct (String.eqb (filename p) kPackratLockfile);
    [apply checkHashes_up_to_date, Hobs|].
  destruct (_ && _); [|reflexivity].
  destruct (_ || _); [reflexivity|apply checkHashes_up_to_date, Hobs].
Qed.

(** X22. Once the status has been fetched, file events in an unchanged world
    do nothing: after [annotatePendingActions], every changed path and every
    batch of changed paths, whatever they name, leaves the session exactly as
    it is, so the watcher's echoes of an unchanged library and lockfile cause
    no refresh and no snapshot. *)
Theorem file_events_absorbed_after_annotate :
  forall (w : World) (s : Session) (changes : list FilePath),
    let sa := snd (annotatePendingActions w s) in
    (forall p : FilePath, onFileChanged w p sa = sa) /\
    onFilesChanged w changes sa = sa.
Proof.
  intros w s changes sa.
  assert (forall p : FilePath, onFileChanged w p sa = sa) as Hone.
  { intros p. apply onFileChanged_up_to_date. intros ty. subst sa.
    rewrite annotatePendingActions_observed. destruct ty; reflexivity. }
  split; [exact Hone|].
  unfold onFilesChanged.
  induction changes as [|p ps IH]; simpl; [reflexivity|].
  rewrite Hone. exact IH.
Qed.
